(** * NodeModal: the path-addressed JSON edit of the node dialog

    A shallow embedding of [src/features/modals/NodeModal/index.tsx]:
    [normalizeNodeData], [jsonPathToString] and [applyEditToJson], together
    with the pieces of the JavaScript platform they call ([String.prototype.slice],
    [Array.prototype.join], property assignment on a plain object,
    [JSON.parse] and [JSON.stringify]).

    Conventions.
    - A JavaScript string is a Stdlib [string]; its characters stand for the
      code units below U+0100.
    - A call that may throw returns an [option]; [None] is the exception.
    - [undefined] arguments ([path?], [newValueRaw?]) are [option]s.
    - [modify] of the jsonc-parser library is a parameter of
      [applyEditToJson]: every statement about path mode holds whatever the
      library returns.
    - [JNum] keeps a number as the exact decimal of its literal, where the
      platform rounds to an IEEE double: the two agree on the decimals
      Number::toString writes ([is_double]), and a statement that reads a
      given number back is about those.  The sign of zero is not modelled. *)

From Stdlib Require Import String Ascii List ZArith NArith Lia Bool Arith.
From Stdlib Require Import Sorted Permutation.
Import ListNotations.
Local Open Scope string_scope.
Set Warnings "-register-all".

(** Sequencing of calls that may throw. *)
Notation "'let?' p ':=' a 'in' b" :=
  (match a with Some p => b | None => None end)
  (at level 10, p pattern, a at level 100, b at level 200).

(** ** JavaScript strings *)

Module JSString.

(** [s.slice(0, n)] for [n >= 0]: the first [n] code units, all of [s] when
    [n] exceeds its length. *)
Fixpoint slice_to (n : nat) (s : string) : string :=
  match n, s with
  | O, _ => EmptyString
  | S _, EmptyString => EmptyString
  | S n', String c s' => String c (slice_to n' s')
  end.

(** [s.slice(n)] for [n >= 0]: what follows the first [n] code units, the
    empty string when [n] exceeds the length. *)
Fixpoint slice_from (n : nat) (s : string) : string :=
  match n, s with
  | O, _ => s
  | S _, EmptyString => EmptyString
  | S n', String _ s' => slice_from n' s'
  end.

(** [s.slice(a, b)] for [0 <= a], [0 <= b]. *)
Definition slice (a b : nat) (s : string) : string :=
  slice_to (b - a) (slice_from a s).

(** [xs.join(sep)] on an array of strings. *)
Fixpoint join (sep : string) (xs : list string) : string :=
  match xs with
  | [] => EmptyString
  | [x] => x
  | x :: rest => x ++ sep ++ join sep rest
  end.

(** The decimal digits of [n >= 0] in front of [tail], least significant
    digit first out. *)
Fixpoint digits_onto (fuel : nat) (n : Z) (tail : string) : string :=
  match fuel with
  | O => tail
  | S fuel' =>
      let tail' := String (ascii_of_nat (48 + Z.to_nat (n mod 10))) tail in
      if (n <? 10)%Z then tail' else digits_onto fuel' (n / 10) tail'
  end.

(** Decimal rendering of a non-negative integer, as [String(n)] gives it. *)
Definition digits (n : Z) : string :=
  digits_onto (S (Z.to_nat (Z.log2 n))) n EmptyString.

(** Decimal rendering of an integer. *)
Definition of_Z (z : Z) : string :=
  if (z <? 0)%Z then String "-" (digits (- z)) else digits z.

Definition of_N (n : N) : string := digits (Z.of_N n).

Definition is_digit (c : ascii) : bool :=
  (Nat.leb 48 (nat_of_ascii c) && Nat.leb (nat_of_ascii c) 57)%bool.

Definition digit_value (c : ascii) : Z := Z.of_nat (nat_of_ascii c - 48).

(** The longest run of digits at the start of [s]: its value after [acc],
    its length added to [count], and the rest of [s]. *)
Fixpoint read_digits (s : string) (acc : Z) (count : nat) : Z * nat * string :=
  match s with
  | String c r =>
      if is_digit c then read_digits r (10 * acc + digit_value c) (S count)
      else (acc, count, s)
  | EmptyString => (acc, count, s)
  end.

(** [n] copies of a character. *)
Fixpoint replicate (n : nat) (c : ascii) : string :=
  match n with
  | O => EmptyString
  | S n' => String c (replicate n' c)
  end.

End JSString.

(** The double-quote character, and JavaScript source text written with
    apostrophes in place of double quotes: [js "{'a':1}"] is the text
    [{"a":1}]. *)
Definition dquote : ascii := "034"%char.

Fixpoint js (s : string) : string :=
  match s with
  | EmptyString => EmptyString
  | String c s' => String (if Ascii.eqb c "'"%char then dquote else c) (js s')
  end.

(** ** Paths *)

(** A segment of [NodeData["path"]] (jsonc-parser's [JSONPath]): a property
    name or an array index. [typeof seg === "number"] holds of [Index]. *)
Inductive Segment : Type :=
| Key (name : string)
| Index (i : N).

Definition JSONPath : Type := list Segment.

(** The callback of [path.map] in [jsonPathToString], followed by the string
    conversion [join] applies to each element. *)
Definition render_segment (seg : Segment) : string :=
  match seg with
  | Index i => JSString.of_N i
  | Key name => String dquote name ++ String dquote EmptyString
  end.

Definition jsonPathToString (path : option JSONPath) : string :=
  match path with
  | None => "$"
  | Some [] => "$"
  | Some p =>
      let segments := map render_segment p in
      "$[" ++ JSString.join "][" segments ++ "]"
  end.

(** ** The platform's JSON object

    [JSON.parse] and [JSON.stringify] are built-ins of the platform, not code
    of this repository.  The model below follows ECMA-262 (sections
    JSON.parse, SerializeJSONProperty, QuoteJSONString, Number::toString and
    OrdinaryOwnPropertyKeys) on 8-bit texts.  A number is the exact decimal
    [m * 10^e] its literal denotes, not the IEEE double nearest to it. *)

Module JSON.

(** A value [JSON.parse] can produce.  [JNum m e] is [m * 10^e], kept with
    [e <= 0] and, when [e < 0], with [m] not a multiple of ten.  The
    properties of [JObj] are in the order [Object.keys] lists them. *)
Inductive Value : Type :=
| JNull
| JBool (b : bool)
| JNum (m e : Z)
| JStr (s : string)
| JArr (items : list Value)
| JObj (props : list (string * Value)).

(** *** Number::toString, radix 10 *)

Fixpoint strip_trailing_zeros_rev (rev_digits : list ascii) : list ascii :=
  match rev_digits with
  | "0"%char :: rest => strip_trailing_zeros_rev rest
  | _ => rev_digits
  end.

Definition strip_trailing_zeros (digits : string) : string :=
  string_of_list_ascii
    (List.rev (strip_trailing_zeros_rev (List.rev (list_ascii_of_string digits)))).

(** [d.ddd e±x] with [digits] the significant digits and [n] the position
    of the decimal point relative to their start. *)
Definition exponential (digits : string) (n : Z) : string :=
  let x := (n - 1)%Z in
  let exp := if (0 <=? x)%Z then "e+" ++ JSString.of_Z x
             else "e-" ++ JSString.of_Z (- x) in
  match digits with
  | EmptyString => EmptyString
  | String d EmptyString => String d exp
  | String d rest => String d ("." ++ rest ++ exp)
  end.

Definition number_to_string (m e : Z) : string :=
  if (m =? 0)%Z then "0" else
  let sign := if (m <? 0)%Z then "-" else EmptyString in
  let digits := JSString.digits (Z.abs m) in
  let k0 := Z.of_nat (String.length digits) in
  let n := (k0 + e)%Z in
  sign ++
  (if (e =? 0)%Z then
     if (k0 <=? 21)%Z then digits
     else exponential (strip_trailing_zeros digits) n
   else if ((0 <? n) && (n <=? 21))%bool%Z then
     JSString.slice_to (Z.to_nat n) digits ++ "." ++
     JSString.slice_from (Z.to_nat n) digits
   else if ((-6 <? n) && (n <=? 0))%bool%Z then
     "0." ++ JSString.replicate (Z.to_nat (- n)) "0"%char ++ digits
   else exponential digits n).

(** *** QuoteJSONString *)

Definition hex_digit (n : nat) : ascii :=
  match n with
  | 0 => "0" | 1 => "1" | 2 => "2" | 3 => "3" | 4 => "4" | 5 => "5"
  | 6 => "6" | 7 => "7" | 8 => "8" | 9 => "9" | 10 => "a" | 11 => "b"
  | 12 => "c" | 13 => "d" | 14 => "e" | _ => "f"
  end%char.

Definition backslash : ascii := "092"%char.

Definition escape_char (c : ascii) : string :=
  let n := nat_of_ascii c in
  if Nat.eqb n 8 then String backslash "b"
  else if Nat.eqb n 9 then String backslash "t"
  else if Nat.eqb n 10 then String backslash "n"
  else if Nat.eqb n 12 then String backslash "f"
  else if Nat.eqb n 13 then String backslash "r"
  else if Nat.eqb n 34 then String backslash (String dquote EmptyString)
  else if Nat.eqb n 92 then String backslash (String backslash EmptyString)
  else if Nat.ltb n 32 then
    String backslash
      ("u00" ++ String (hex_digit (n / 16)) (String (hex_digit (n mod 16)) EmptyString))
  else String c EmptyString.

Fixpoint escape (s : string) : string :=
  match s with
  | EmptyString => EmptyString
  | String c s' => escape_char c ++ escape s'
  end.

Definition quote (s : string) : string :=
  String dquote (escape s ++ String dquote EmptyString).

(** *** SerializeJSONProperty, with [gap] spaces per level *)

Definition newline : ascii := "010"%char.

Definition spaces (n : nat) : string := JSString.replicate n " "%char.

(** The text of a non-empty array or object from the texts of its
    elements ([SerializeJSONArray] and [SerializeJSONObject], final steps). *)
Definition wrap (opening closing : string) (gap indent : nat)
           (partial : list string) : string :=
  if Nat.eqb gap 0 then
    opening ++ JSString.join "," partial ++ closing
  else
    let stepback := spaces indent in
    let inner := spaces (indent + gap) in
    let separator := "," ++ String newline inner in
    opening ++ String newline inner ++ JSString.join separator partial ++
    String newline stepback ++ closing.

Fixpoint serialize (gap indent : nat) (v : Value) {struct v} : string :=
  match v with
  | JNull => "null"
  | JBool true => "true"
  | JBool false => "false"
  | JNum m e => number_to_string m e
  | JStr s => quote s
  | JArr [] => "[]"
  | JArr items =>
      wrap "[" "]" gap indent (map (serialize gap (indent + gap)) items)
  | JObj [] => "{}"
  | JObj props =>
      wrap "{" "}" gap indent
        (map (fun kv =>
                quote (fst kv) ++ ":" ++
                (if Nat.eqb gap 0 then EmptyString else " ") ++
                serialize gap (indent + gap) (snd kv))
             props)
  end.

(** [JSON.stringify(v, null, space)]; [space = 0] is [JSON.stringify(v)]. *)
Definition stringify (v : Value) (space : nat) : string := serialize space 0 v.

(** *** Own properties of an ordinary object *)

(** The array index a property name denotes, if it is the canonical decimal
    of an integer below [2^32 - 1]. *)
Definition array_index (name : string) : option Z :=
let '(n, _, _) := JSString.read_digits name 0 0 in
if (String.eqb (JSString.digits n) name && (n <=? 4294967294)%Z)%bool
then Some n else None.

Fixpoint has_property (name : string) (props : list (string * Value)) : bool :=
  match props with
  | [] => false
  | (k, _) :: rest => String.eqb k name || has_property name rest
  end.

Fixpoint replace_property (name : string) (v : Value)
         (props : list (string * Value)) : list (string * Value) :=
  match props with
  | [] => []
  | (k, w) :: rest =>
      if String.eqb k name then (k, v) :: rest
      else (k, w) :: replace_property name v rest
  end.

(** A new index property goes before the first property that is not an
    index or is a larger one. *)
Fixpoint insert_index (i : Z) (name : string) (v : Value)
         (props : list (string * Value)) : list (string * Value) :=
  match props with
  | [] => [(name, v)]
  | (k, w) :: rest =>
      match array_index k with
      | Some j =>
          if (j <? i)%Z then (k, w) :: insert_index i name v rest
          else (name, v) :: props
      | None => (name, v) :: props
      end
  end.

(** [CreateDataProperty(obj, name, v)] on an ordinary extensible object:
    an existing property keeps its place, index properties are listed first
    in ascending order, other names in the order of their creation. *)
Definition define_own (name : string) (v : Value)
           (props : list (string * Value)) : list (string * Value) :=
  if has_property name props then replace_property name v props
  else match array_index name with
       | Some i => insert_index i name v props
       | None => props ++ [(name, v)]
       end.

Definition build_object (members : list (string * Value)) : list (string * Value) :=
  fold_left (fun props kv => define_own (fst kv) (snd kv) props) members [].

Fixpoint get_property (name : string) (props : list (string * Value)) : option Value :=
  match props with
  | [] => None
  | (k, w) :: rest => if String.eqb k name then Some w else get_property name rest
  end.

(** *** JSON.parse *)

Definition is_ws (c : ascii) : bool :=
  let n := nat_of_ascii c in
  (Nat.eqb n 9 || Nat.eqb n 10 || Nat.eqb n 13 || Nat.eqb n 32)%bool.

Fixpoint skip_ws (s : string) : string :=
  match s with
  | String c r => if is_ws c then skip_ws r else s
  | EmptyString => s
  end.

Fixpoint strip_decimal (fuel : nat) (m e : Z) : Z * Z :=
  match fuel with
  | O => (m, e)
  | S fuel' =>
      if ((e <? 0) && (m mod 10 =? 0))%bool%Z
      then strip_decimal fuel' (m / 10) (e + 1)
      else (m, e)
  end.

(** The number [m * 10^e] in the form [JNum] keeps. *)
Definition normalize (m e : Z) : Z * Z :=
  if (m =? 0)%Z then (0, 0)%Z
  else if (0 <=? e)%Z then (m * 10 ^ e, 0)%Z
  else strip_decimal (Z.to_nat (- e)) m e.

Definition make_number (negative : bool) (int_part frac_part : Z)
           (frac_len : nat) (exponent : Z) : Value :=
  let m := (int_part * 10 ^ Z.of_nat frac_len + frac_part)%Z in
  let '(m', e') := normalize m (exponent - Z.of_nat frac_len) in
  JNum (if negative then - m' else m') e'.

Definition read_fraction (s : string) : option (Z * nat * string) :=
  match s with
  | String c r =>
      if Ascii.eqb c "." then
        let '(v, n, r') := JSString.read_digits r 0 0 in
        if Nat.eqb n 0 then None else Some (v, n, r')
      else Some (0%Z, 0, s)
  | EmptyString => Some (0%Z, 0, s)
  end.

Definition read_exponent_digits (negative : bool) (s : string) : option (Z * string) :=
  let '(v, n, r) := JSString.read_digits s 0 0 in
  if Nat.eqb n 0 then None else Some (if negative then (- v)%Z else v, r).

Definition read_exponent (s : string) : option (Z * string) :=
  match s with
  | String c r =>
      if (Ascii.eqb c "e" || Ascii.eqb c "E")%bool then
        match r with
        | String sign r' =>
            if Ascii.eqb sign "+" then read_exponent_digits false r'
            else if Ascii.eqb sign "-" then read_exponent_digits true r'
            else read_exponent_digits false r
        | EmptyString => None
        end
      else Some (0%Z, s)
  | EmptyString => Some (0%Z, s)
  end.

(** A number literal: an optional minus sign; an integer part, either a
    single zero or a run of digits that does not start with zero; an
    optional fraction, a point and one digit or more; an optional exponent,
    the letter e in either case, an optional sign and one digit or more. *)
Definition parse_unsigned (negative : bool) (s : string) : option (Value * string) :=
match s with
| String c r =>
    if JSString.is_digit c then
      let '(int_part, _, s2) :=
        if Ascii.eqb c "0" then (0%Z, 1, r) else JSString.read_digits s 0 0 in
      let? (frac_part, frac_len, s3) := read_fraction s2 in
      let? (exponent, s4) := read_exponent s3 in
      Some (make_number negative int_part frac_part frac_len exponent, s4)
    else None
| EmptyString => None
end.

Definition parse_number (s : string) : option (Value * string) :=
match s with
| String c r => if Ascii.eqb c "-" then parse_unsigned true r else parse_unsigned false s
| EmptyString => None
end.

Definition hex_value (c : ascii) : option nat :=
  let n := nat_of_ascii c in
  if (Nat.leb 48 n && Nat.leb n 57)%bool then Some (n - 48)
  else if (Nat.leb 97 n && Nat.leb n 102)%bool then Some (n - 87)
  else if (Nat.leb 65 n && Nat.leb n 70)%bool then Some (n - 55)
  else None.

(** The code unit of [\uXXXX]; one above U+00FF is outside the alphabet of
    this model and is rejected. *)
Definition unicode_escape (a b c d : ascii) : option ascii :=
  let? x3 := hex_value a in
  let? x2 := hex_value b in
  let? x1 := hex_value c in
  let? x0 := hex_value d in
  if (Nat.eqb x3 0 && Nat.eqb x2 0)%bool then Some (ascii_of_nat (16 * x1 + x0))
  else None.

Definition simple_escape (c : ascii) : option ascii :=
  if Ascii.eqb c dquote then Some dquote
  else if Ascii.eqb c backslash then Some backslash
  else if Ascii.eqb c "/" then Some "/"%char
  else if Ascii.eqb c "b" then Some (ascii_of_nat 8)
  else if Ascii.eqb c "f" then Some (ascii_of_nat 12)
  else if Ascii.eqb c "n" then Some (ascii_of_nat 10)
  else if Ascii.eqb c "r" then Some (ascii_of_nat 13)
  else if Ascii.eqb c "t" then Some (ascii_of_nat 9)
  else None.

(** The characters of a string literal after its opening quote, up to and
    including the closing one. *)
Fixpoint parse_string_body (s : string) : option (string * string) :=
  match s with
  | EmptyString => None
  | String c r =>
      if Ascii.eqb c dquote then Some (EmptyString, r)
      else if Ascii.eqb c backslash then
        match r with
        | String x r1 =>
            if Ascii.eqb x "u" then
              match r1 with
              | String h3 (String h2 (String h1 (String h0 r2))) =>
                  let? ch := unicode_escape h3 h2 h1 h0 in
                  let? (str, rest) := parse_string_body r2 in
                  Some (String ch str, rest)
              | _ => None
              end
            else
              let? ch := simple_escape x in
              let? (str, rest) := parse_string_body r1 in
              Some (String ch str, rest)
        | EmptyString => None
        end
      else if Nat.ltb (nat_of_ascii c) 32 then None
      else
        let? (str, rest) := parse_string_body r in
        Some (String c str, rest)
  end.

Definition parse_literal (word : string) (v : Value) (s : string)
  : option (Value * string) :=
  if String.prefix word s
  then Some (v, JSString.slice_from (String.length word) s)
  else None.

Fixpoint parse_value (fuel : nat) (s : string) {struct fuel}
  : option (Value * string) :=
  match fuel with
  | O => None
  | S fuel' =>
      match s with
      | EmptyString => None
      | String c r =>
          if Ascii.eqb c "{" then
            match skip_ws r with
            | EmptyString => None
            | String c' r' =>
                if Ascii.eqb c' "}" then Some (JObj [], r')
                else
                  let? (members, rest) := parse_members fuel' (String c' r') in
                  Some (JObj (build_object members), rest)
            end
          else if Ascii.eqb c "[" then
            match skip_ws r with
            | EmptyString => None
            | String c' r' =>
                if Ascii.eqb c' "]" then Some (JArr [], r')
                else
                  let? (items, rest) := parse_elements fuel' (String c' r') in
                  Some (JArr items, rest)
            end
          else if Ascii.eqb c dquote then
            let? (str, rest) := parse_string_body r in
            Some (JStr str, rest)
          else if Ascii.eqb c "t" then parse_literal "true" (JBool true) s
          else if Ascii.eqb c "f" then parse_literal "false" (JBool false) s
          else if Ascii.eqb c "n" then parse_literal "null" JNull s
          else parse_number s
      end
  end

(** The elements of an array from the first one up to the closing bracket. *)
with parse_elements (fuel : nat) (s : string) {struct fuel}
  : option (list Value * string) :=
  match fuel with
  | O => None
  | S fuel' =>
      let? (v, r) := parse_value fuel' s in
      match skip_ws r with
      | EmptyString => None
      | String c r' =>
          if Ascii.eqb c "," then
            let? (items, rest) := parse_elements fuel' (skip_ws r') in
            Some (v :: items, rest)
          else if Ascii.eqb c "]" then Some ([v], r')
          else None
      end
  end

(** The members of an object from the first one up to the closing brace. *)
with parse_members (fuel : nat) (s : string) {struct fuel}
  : option (list (string * Value) * string) :=
  match fuel with
  | O => None
  | S fuel' =>
      match s with
      | EmptyString => None
      | String q r0 =>
          if Ascii.eqb q dquote then
            let? (name, r1) := parse_string_body r0 in
            match skip_ws r1 with
            | EmptyString => None
            | String colon r2 =>
                if Ascii.eqb colon ":" then
                  let? (v, r3) := parse_value fuel' (skip_ws r2) in
                  match skip_ws r3 with
                  | EmptyString => None
                  | String c r' =>
                      if Ascii.eqb c "," then
                        let? (members, rest) := parse_members fuel' (skip_ws r') in
                        Some ((name, v) :: members, rest)
                      else if Ascii.eqb c "}" then Some ([(name, v)], r')
                      else None
                  end
                else None
            end
          else None
      end
  end.

(** Every call of the three functions above consumes a character before the
    next one of the same kind, so twice the length of the text is enough
    (theorem [parse_fuel_enough] below). *)
Definition fuel_for (text : string) : nat := 2 * String.length text + 2.

(** [JSON.parse(text)]; [None] is the [SyntaxError]. *)
Definition parse (text : string) : option Value :=
  let? (v, rest) := parse_value (fuel_for text) (skip_ws text) in
  match skip_ws rest with
  | EmptyString => Some v
  | String _ _ => None
  end.

End JSON.

(** ** Node rows *)

(** A primitive JavaScript value: what a row of a node holds. *)
Inductive Primitive : Type :=
| PNull
| PBool (b : bool)
| PNum (m e : Z)
| PStr (s : string).

(** One entry of [NodeData["text"]].  The type is declared in [types/graph];
    the fields here are the ones [normalizeNodeData] reads: [key] is a string
    or [null], [value] a primitive, [type] the name of the JSON type of the
    entry. *)
Record NodeRow : Type := mkRow {
  key : option string;
  value : Primitive;
  type : string
}.

(** The string a template literal makes of a primitive. *)
Definition to_string (p : Primitive) : string :=
  match p with
  | PNull => "null"
  | PBool true => "true"
  | PBool false => "false"
  | PNum m e => JSON.number_to_string m e
  | PStr s => s
  end.

Definition to_value (p : Primitive) : JSON.Value :=
  match p with
  | PNull => JSON.JNull
  | PBool b => JSON.JBool b
  | PNum m e => JSON.JNum m e
  | PStr s => JSON.JStr s
  end.

(** [row.key] used as a condition: [null] and the empty string are falsy. *)
Definition truthy (k : option string) : bool :=
  match k with
  | None => false
  | Some EmptyString => false
  | Some (String _ _) => true
  end.

(** An object made by the literal [{}]: its own properties and whether its
    prototype is still [Object.prototype]. *)
Record PlainObject : Type := mkObject {
  own : list (string * JSON.Value);
  inherits : bool
}.

Definition empty_object : PlainObject := mkObject [] true.

(** [obj[name] = p] for a primitive [p].  The name [__proto__] is inherited
    from [Object.prototype] as an accessor: its setter replaces the prototype
    when given [null] and ignores any other primitive; no own property is
    made.  Once the prototype is gone the name is an ordinary one. *)
Definition assign (obj : PlainObject) (name : string) (p : Primitive) : PlainObject :=
  if (String.eqb name "__proto__" && inherits obj
      && negb (JSON.has_property name (own obj)))%bool
  then match p with
       | PNull => mkObject (own obj) false
       | _ => obj
       end
  else mkObject (JSON.define_own name (to_value p) (own obj)) (inherits obj).

(** The callback of [nodeRows.forEach] in [normalizeNodeData]. *)
Definition add_row (obj : PlainObject) (row : NodeRow) : PlainObject :=
  if (negb (String.eqb (type row) "array") && negb (String.eqb (type row) "object"))%bool
  then
    if truthy (key row)
    then match key row with
         | Some name => assign obj name (value row)
         | None => obj
         end
    else obj
  else obj.

Definition normalizeNodeData (nodeRows : option (list NodeRow)) : string :=
  match nodeRows with
  | None | Some [] => "{}"
  | Some ((row0 :: _) as rows) =>
      if (Nat.eqb (List.length rows) 1 && negb (truthy (key row0)))%bool
      then to_string (value row0)
      else
        let obj := fold_left add_row rows empty_object in
        JSON.stringify (JSON.JObj (own obj)) 2
  end.

(** ** Edits *)

(** An [Edit] of jsonc-parser: replace [length] code units at [offset] by
    [content]. *)
Record Edit : Type := mkEdit {
  offset : nat;
  length : nat;
  content : string
}.

(** The callback of [forEach] in [applyEditToJson]:
    [result.slice(0, e.offset) + e.content + result.slice(e.offset + e.length)]. *)
Definition splice (result : string) (e : Edit) : string :=
  JSString.slice_to (offset e) result ++ content e ++
  JSString.slice_from (offset e + length e) result.

(** [edits.slice().reverse().forEach(...)] from [originalJson]. *)
Definition apply_edits (originalJson : string) (edits : list Edit) : string :=
  fold_left splice (rev edits) originalJson.

(** The patch applier in the words of the specification: the descriptors
    sorted by offset, highest first, then spliced one after the other. *)
Fixpoint insert_desc (e : Edit) (sorted : list Edit) : list Edit :=
  match sorted with
  | [] => [e]
  | x :: rest =>
      if Nat.ltb (offset x) (offset e) then e :: sorted
      else x :: insert_desc e rest
  end.

Definition sort_desc (edits : list Edit) : list Edit :=
  fold_right insert_desc [] edits.

Definition apply_sorted (originalText : string) (descriptors : list Edit) : string :=
  fold_left splice (sort_desc descriptors) originalText.

(** The descriptors are listed from left to right, none starts before
    position [from] or before the end of the one ahead of it, and none
    reaches past [size]. *)
Fixpoint in_order (from size : nat) (edits : list Edit) : bool :=
  match edits with
  | [] => true
  | e :: rest =>
      (Nat.leb from (offset e) && Nat.leb (offset e + length e) size
       && in_order (offset e + length e) size rest)%bool
  end.

(** The original text with every span replaced by its content, read from
    position [from] on. *)
Fixpoint replace_spans (from : nat) (text : string) (edits : list Edit) : string :=
  match edits with
  | [] => JSString.slice_from from text
  | e :: rest =>
      JSString.slice from (offset e) text ++ content e ++
      replace_spans (offset e + length e) text rest
  end.

(** ** applyEditToJson *)

Section ApplyEdit.

(** [modify] of jsonc-parser, called with the formatting options
    [{ insertSpaces: true, tabSize: 2 }]: the edits that set the value at a
    path, or an exception.  The library is not part of this repository. *)
Variable jsoncModify : string -> JSONPath -> JSON.Value -> option (list Edit).

(** The body of the outer [try]; [None] is an exception reaching its
    [catch]. *)
Definition applyEditToJson_try (originalJson : string) (path : option JSONPath)
           (newValueRaw : option string) : option string :=
  match path with
  | None | Some [] =>
      let? parsed := JSON.parse originalJson in
      let newVal :=
        match JSON.parse (match newValueRaw with Some r => r | None => "null" end) with
        | Some v => v
        | None => JSON.JStr (match newValueRaw with Some r => r | None => EmptyString end)
        end in
      Some (JSON.stringify newVal 2)
  | Some path =>
      let nodePath :=
        map (fun p => match p with Index i => Index i | Key s => Key s end) path in
      let newVal :=
        match JSON.parse (match newValueRaw with Some r => r | None => "null" end) with
        | Some v => v
        | None => JSON.JStr (match newValueRaw with Some r => r | None => EmptyString end)
        end in
      let? edits := jsoncModify originalJson nodePath newVal in
      Some (apply_edits originalJson edits)
  end.

Definition applyEditToJson (originalJson : string) (path : option JSONPath)
           (newValueRaw : option string) : string :=
  match applyEditToJson_try originalJson path newValueRaw with
  | Some result => result
  | None => originalJson
  end.

End ApplyEdit.

(** The value coercion in the words of the specification: the raw text is
    parsed as JSON; when that fails it is taken as a string. *)
Definition coerce (newValueRaw : string) : JSON.Value :=
  match JSON.parse newValueRaw with
  | Some parsed => parsed
  | None => JSON.JStr newValueRaw
  end.

(** A stand-in for jsonc-parser on a document whose target value occupies
    [len] code units at [off]: one descriptor that replaces that span by the
    compact serialization of the new value. *)
Definition replace_span (off len : nat)
  : string -> JSONPath -> JSON.Value -> option (list Edit) :=
  fun _ _ newVal => Some [mkEdit off len (JSON.stringify newVal 0)].

(** Another patch computation, for statements that hold whatever the
    library is: one descriptor that inserts the compact serialization of the
    new value, after a comma, before the last code unit of the text. *)
Definition append_item : string -> JSONPath -> JSON.Value -> option (list Edit) :=
  fun originalJson _ newVal =>
    Some [mkEdit (String.length originalJson - 1) 0
                 ("," ++ JSON.stringify newVal 0)].

(** ** Definitions used by the statements *)

(** One segment between its brackets, as the specification words it: an index bare,
    a property name between double quotes. *)
Definition bracketed (seg : Segment) : string :=
  match seg with
  | Index i => "[" ++ JSString.of_N i ++ "]"
  | Key name => "[" ++ String dquote (name ++ String dquote "]")
  end.

Fixpoint brackets (p : JSONPath) : string :=
  match p with
  | [] => EmptyString
  | seg :: rest => bracketed seg ++ brackets rest
  end.

(** A row [normalizeNodeData] keeps: neither an array nor an object, and with
    a key that is neither [null] nor empty. *)
Definition kept (row : NodeRow) : bool :=
  (negb (String.eqb (type row) "array") && negb (String.eqb (type row) "object")
   && truthy (key row))%bool.

(** The value the kept rows give a name: that of the last kept row with that
    key. *)
Definition row_value (name : string) (rows : list NodeRow) : option JSON.Value :=
  fold_left
    (fun found row =>
       if kept row then
         match key row with
         | Some k => if String.eqb k name then Some (to_value (value row)) else found
         | None => found
         end
       else found)
    rows None.

Definition proto_free (rows : list NodeRow) : Prop :=
  forall row, In row rows -> key row <> Some "__proto__".

Definition not_before (a b : Edit) : Prop := offset b <= offset a.
Definition after (a b : Edit) : Prop := offset b < offset a.

(** The value either mode writes: the coercion of the raw text, [null]
    when there is none. *)
Definition written (newValueRaw : option string) : JSON.Value :=
  match newValueRaw with
  | Some raw => coerce raw
  | None => JSON.JNull
  end.

Fixpoint all_digits (s : string) : bool :=
  match s with
  | EmptyString => true
  | String c r => (JSString.is_digit c && all_digits r)%bool
  end.

Fixpoint digits_value (s : string) (acc : Z) : Z :=
  match s with
  | EmptyString => acc
  | String c r => digits_value r (10 * acc + JSString.digit_value c)
  end.

(** What may follow a value in a text: nothing, a comma, a closing bracket
    or brace, a line break. *)
Definition is_delimiter (c : ascii) : bool :=
  (Ascii.eqb c "," || Ascii.eqb c "]" || Ascii.eqb c "}"
   || Ascii.eqb c JSON.newline)%bool.

Definition delimited (s : string) : bool :=
  match s with
  | EmptyString => true
  | String c _ => is_delimiter c
  end.

Definition stops (s : string) : bool :=
  match s with
  | EmptyString => true
  | String c _ => negb (JSString.is_digit c)
  end.

(** The fraction and the exponent of a literal, as [number_to_string] writes
    them. *)
Definition frac_text (f : string) : string :=
  match f with
  | EmptyString => EmptyString
  | _ => "." ++ f
  end.

Definition exp_text (x : option Z) : string :=
  match x with
  | None => EmptyString
  | Some x => if (0 <=? x)%Z then "e+" ++ JSString.digits x
              else "e-" ++ JSString.digits (- x)
  end.

Definition int_text_ok (i : string) : Prop :=
  i = "0" \/ exists c r, i = String c r /\ Ascii.eqb c "0" = false.

(** The form [JNum] keeps a number in. *)
Definition canonical_number (m e : Z) : bool :=
  ((e <=? 0) && ((e =? 0) || negb (m mod 10 =? 0)))%bool%Z.

(** The digits and the exponent of [number_to_string], after the sign. *)
Definition number_body (digits : string) (e : Z) : string :=
  let k0 := Z.of_nat (String.length digits) in
  let n := (k0 + e)%Z in
  if (e =? 0)%Z then
    if (k0 <=? 21)%Z then digits
    else JSON.exponential (JSON.strip_trailing_zeros digits) n
  else if ((0 <? n) && (n <=? 21))%bool%Z then
    JSString.slice_to (Z.to_nat n) digits ++ "." ++
    JSString.slice_from (Z.to_nat n) digits
  else if ((-6 <? n) && (n <=? 0))%bool%Z then
    "0." ++ JSString.replicate (Z.to_nat (- n)) "0"%char ++ digits
  else JSON.exponential digits n.

(** A value as [JSON.parse] makes it: numbers in the form [JNum] keeps, the
    properties of an object in the order the platform lists them. *)
Fixpoint canonical (v : JSON.Value) : Prop :=
  match v with
  | JSON.JNum m e => canonical_number m e = true
  | JSON.JArr items => fold_right (fun x rest => canonical x /\ rest) True items
  | JSON.JObj props =>
      JSON.build_object props = props /\
      fold_right (fun kv rest => canonical (snd kv) /\ rest) True props
  | _ => True
  end.

(** The calls [parse_value] needs to read a value back. *)
Fixpoint need (v : JSON.Value) : nat :=
  match v with
  | JSON.JArr items => S (fold_right (fun x n => S (need x + n)) 0 items)
  | JSON.JObj props => S (fold_right (fun kv n => S (need (snd kv) + n)) 0 props)
  | _ => 1
  end.

(** Induction over values, through the lists they hold. *)
Section ValueInduction.

Variable P : JSON.Value -> Prop.
Hypothesis P_null : P JSON.JNull.
Hypothesis P_bool : forall b, P (JSON.JBool b).
Hypothesis P_num : forall m e, P (JSON.JNum m e).
Hypothesis P_str : forall s, P (JSON.JStr s).
Hypothesis P_arr : forall items, Forall P items -> P (JSON.JArr items).
Hypothesis P_obj : forall props, Forall (fun kv => P (snd kv)) props -> P (JSON.JObj props).

Fixpoint value_ind (v : JSON.Value) : P v :=
  match v with
  | JSON.JNull => P_null
  | JSON.JBool b => P_bool b
  | JSON.JNum m e => P_num m e
  | JSON.JStr s => P_str s
  | JSON.JArr items =>
      P_arr items
        ((fix all (l : list JSON.Value) : Forall P l :=
            match l with
            | [] => Forall_nil P
            | x :: r => Forall_cons x (value_ind x) (all r)
            end) items)
  | JSON.JObj props =>
      P_obj props
        ((fix all (l : list (string * JSON.Value)) : Forall (fun kv => P (snd kv)) l :=
            match l with
            | [] => Forall_nil _
            | kv :: r => Forall_cons kv (value_ind (snd kv)) (all r)
            end) props)
  end.

End ValueInduction.

Fixpoint all_ws (s : string) : bool :=
  match s with
  | EmptyString => true
  | String c r => (JSON.is_ws c && all_ws r)%bool
  end.

(** A character a value text can start with. *)
Definition value_head (s : string) : bool :=
  match s with
  | EmptyString => false
  | String c _ =>
      (JSString.is_digit c || Ascii.eqb c "-" || Ascii.eqb c dquote
       || Ascii.eqb c "[" || Ascii.eqb c "{" || Ascii.eqb c "n"
       || Ascii.eqb c "t" || Ascii.eqb c "f")%bool
  end.

(** The statement of the round trip for one value. *)
Definition reads_back (v : JSON.Value) : Prop :=
  canonical v ->
  forall gap indent fuel rest,
    need v <= fuel -> delimited rest = true ->
    JSON.parse_value fuel (JSON.serialize gap indent v ++ rest) = Some (v, rest).

(** The text of one member of an object. *)
Definition member_text (gap indent : nat) (kv : string * JSON.Value) : string :=
  JSON.quote (fst kv) ++ ":" ++
  (if Nat.eqb gap 0 then EmptyString else " ") ++
  JSON.serialize gap indent (snd kv).

(** Property lists as a run of [CreateDataProperty] calls leaves them: each
    index name comes after smaller index names only, each other name is new
    where it stands. *)
Inductive Ordered : list (string * JSON.Value) -> Prop :=
| ordered_nil : Ordered []
| ordered_index props k v i :
    Ordered props -> JSON.array_index k = Some i ->
    Forall (fun kv => exists j, JSON.array_index (fst kv) = Some j /\ (j < i)%Z) props ->
    Ordered (props ++ [(k, v)])%list
| ordered_plain props k v :
    Ordered props -> JSON.array_index k = None ->
    JSON.has_property k props = false ->
    Ordered (props ++ [(k, v)])%list.

Definition smaller_index (i : Z) (kv : string * JSON.Value) : bool :=
  match JSON.array_index (fst kv) with
  | Some j => (j <? i)%Z
  | None => false
  end.

Definition values_canonical (props : list (string * JSON.Value)) : Prop :=
  fold_right (fun kv rest => canonical (snd kv) /\ rest) True props.

(** The code units the descriptors remove and the code units they bring. *)
Definition removed (edits : list Edit) : nat :=
  fold_right (fun e n => length e + n) 0 edits.

Definition inserted (edits : list Edit) : nat :=
  fold_right (fun e n => String.length (content e) + n) 0 edits.

(** Where the last descriptor ends, [from] when there is none. *)
Fixpoint last_end (from : nat) (edits : list Edit) : nat :=
  match edits with
  | [] => from
  | e :: rest => last_end (offset e + length e) rest
  end.

(** The rows for which [normalizeNodeData] builds an object: all but a single
    row without a key. *)
Definition object_branch (rows : list NodeRow) : bool :=
  match rows with
  | [row] => truthy (key row)
  | _ => true
  end.

(** The numbers the rows hold are in the form [JNum] keeps. *)
Definition rows_canonical (rows : list NodeRow) : Prop :=
  Forall (fun row => canonical (to_value (value row))) rows.

(** No double quote in a string; no key with one in a path. *)
Fixpoint quote_free (s : string) : bool :=
  match s with
  | EmptyString => true
  | String c r => (negb (Ascii.eqb c dquote) && quote_free r)%bool
  end.

Definition keys_quote_free (p : JSONPath) : bool :=
  forallb (fun seg => match seg with Key name => quote_free name | Index _ => true end) p.

(** ** The dialog: its state, its handlers and its controls *)

Module NodeModal.

(** The selected node as the dialog reads it: its rows and its path. *)
Record NodeData := mkNode { text : option (list NodeRow); path : option JSONPath }.

(** [nodeData?.text ?? []] *)
Definition rows (nodeData : option NodeData) : list NodeRow :=
  match nodeData with
  | Some nd => match text nd with Some t => t | None => [] end
  | None => []
  end.

(** [nodeData?.path] *)
Definition node_path (nodeData : option NodeData) : option JSONPath :=
  match nodeData with
  | Some nd => path nd
  | None => None
  end.

(** The two pieces of state of the component. *)
Record State := mkState { isEditing : bool; editedValue : string }.

(** A call to the outside either returns or raises. *)
Inductive Outcome := Returns | Throws.

(** The calls the dialog makes to the outside: the file store's setter and the
    [onClose] prop. *)
Inductive Call :=
| SetJsonContents (contents : string) (hasChanges : bool)
| OnClose.

(** What the component reads from the stores, with its state. *)
Record Dialog := mkDialog { nodeData : option NodeData; contents : string; state : State }.

(** What can happen to the dialog: a click on one of its controls, typing in
    the text area, and from the outside another selected node or other
    contents of the file. *)
Inductive Event :=
| ClickEdit
| ClickSave
| ClickCancel
| ClickClose
| Change (value : string)
| SelectedNode (nodeData : option NodeData)
| FileContents (contents : string).

Section Component.

Variable jsoncModify : string -> JSONPath -> JSON.Value -> option (list Edit).
Variable setJsonContents : string -> bool -> Outcome.
Variable onClose : option Outcome.

(** [onClose?.()]: the calls made. *)
Definition close : list Call :=
  match onClose with
  | Some _ => [OnClose]
  | None => []
  end.

(** The effect that runs when the selected node changes, and at the start. *)
Definition nodeDataEffect (nodeData : option NodeData) : State :=
  mkState false (normalizeNodeData (Some (rows nodeData))).

(** The state after [handleSave], and the calls it made. *)
Definition handleSave (nodeData : option NodeData) (contents : string) (s : State)
  : State * list Call :=
  match nodeData with
  | None => (s, [])
  | Some nd =>
      let updated := applyEditToJson jsoncModify contents (path nd) (Some (editedValue s)) in
      match setJsonContents updated true with
      | Throws => (s, [SetJsonContents updated true])
      | Returns => (mkState false (editedValue s), SetJsonContents updated true :: close)
      end
  end.

Definition handleCancel (nodeData : option NodeData) : State :=
  mkState false (normalizeNodeData (Some (rows nodeData))).

(** One event. The Edit button is there when the dialog is not editing; the
    Save and Cancel buttons and the text area when it is. [None]: the control
    is not there. *)
Definition step (d : Dialog) (e : Event) : option (Dialog * list Call) :=
  match e with
  | ClickEdit =>
      if isEditing (state d) then None
      else Some (mkDialog (nodeData d) (contents d)
                          (mkState true (editedValue (state d))), [])
  | ClickSave =>
      if isEditing (state d) then
        let (s, calls) := handleSave (nodeData d) (contents d) (state d) in
        Some (mkDialog (nodeData d) (contents d) s, calls)
      else None
  | ClickCancel =>
      if isEditing (state d) then
        Some (mkDialog (nodeData d) (contents d) (handleCancel (nodeData d)), [])
      else None
  | ClickClose => Some (d, close)
  | Change value =>
      if isEditing (state d) then
        Some (mkDialog (nodeData d) (contents d) (mkState true value), [])
      else None
  | SelectedNode selected =>
      Some (mkDialog selected (contents d) (nodeDataEffect selected), [])
  | FileContents c => Some (mkDialog (nodeData d) c (state d), [])
  end.

(** The events one after the other, with all the calls made. *)
Fixpoint run (d : Dialog) (events : list Event) : option (Dialog * list Call) :=
  match events with
  | [] => Some (d, [])
  | e :: rest =>
      let? (d1, calls1) := step d e in
      let? (d2, calls2) := run d1 rest in
      Some (d2, (calls1 ++ calls2)%list)
  end.

(** The dialog once its first effect has run. *)
Definition mount (nodeData : option NodeData) (contents : string) : Dialog :=
  mkDialog nodeData contents (nodeDataEffect nodeData).

End Component.

(** No click on Save among the events. *)
Definition save_free (events : list Event) : bool :=
  forallb (fun e => match e with ClickSave => false | _ => true end) events.

(** Out of editing mode the edited value is the text of the selected node. *)
Definition in_step (d : Dialog) : Prop :=
  isEditing (state d) = false ->
  editedValue (state d) = normalizeNodeData (Some (rows (nodeData d))).

End NodeModal.

(** ** The numbers of the platform *)

(** [JSON.parse] reads a number literal as the IEEE 754 double nearest to
    it, and Number::toString writes a double with the fewest digits that
    are read back as that double.  [JNum] keeps the decimal of the literal as
    it is; the definitions below say when that decimal is the one the
    platform writes for the double it reads: then [JNum m e] is a number of
    the platform, and reading and writing it are as the platform has them. *)
Module Double.

(** The integer nearest to [a / b], the even one of two that are equally
    near, for [0 <= a] and [0 < b]. *)
Definition round_div (a b : Z) : Z :=
  let q := (a / b)%Z in
  let r := (a mod b)%Z in
  if (2 * r <? b)%Z then q
  else if (b <? 2 * r)%Z then (q + 1)%Z
  else if Z.even q then q else (q + 1)%Z.

(** The largest [l] with [2^l <= num / den], for [0 < num] and [0 < den]. *)
Definition floor_log2 (num den : Z) : Z :=
  let l := (Z.log2 num - Z.log2 den)%Z in
  if (den * 2 ^ Z.max 0 l <=? num * 2 ^ Z.max 0 (- l))%Z then l else (l - 1)%Z.

(** The double nearest to [num / den], ties to even, as [(M, E)] for
    [M * 2^E], with [M < 2^53] and [-1074 <= E], and [2^52 <= M] unless
    [E = -1074]; [None] is Infinity. *)
Definition of_fraction (num den : Z) : option (Z * Z) :=
  if (num =? 0)%Z then Some (0, -1074)%Z else
  let E := Z.max (floor_log2 num den - 52) (-1074) in
  let M := round_div (num * 2 ^ Z.max 0 (- E)) (den * 2 ^ Z.max 0 E) in
  let '(M, E) := if (M =? 2 ^ 53)%Z then (2 ^ 52, E + 1)%Z else (M, E) in
  if (971 <? E)%Z then None else Some (M, E).

(** The double nearest to [m * 10^e], for [0 <= m]. *)
Definition of_decimal (m e : Z) : option (Z * Z) :=
  of_fraction (m * 10 ^ Z.max 0 e) (10 ^ Z.max 0 (- e)).

(** The largest [p] with [10^p <= num / den], from an estimate [p]. *)
Fixpoint adjust_log10 (fuel : nat) (num den p : Z) : Z :=
  match fuel with
  | O => p
  | S fuel' =>
      if (num * 10 ^ Z.max 0 (- p) <? den * 10 ^ Z.max 0 p)%Z
      then adjust_log10 fuel' num den (p - 1)
      else if (den * 10 ^ Z.max 0 (p + 1) <=? num * 10 ^ Z.max 0 (- (p + 1)))%Z
           then adjust_log10 fuel' num den (p + 1)
           else p
  end.

Definition floor_log10 (num den : Z) : Z :=
  adjust_log10 4 num den (floor_log2 num den * 1233 / 4096).

(** The decimals [s * 10^x] of [k] digits that are read as the double
    [(M, E)], the one nearer to the double first, the even one of two that
    are equally near. *)
Definition candidates (d : Z * Z) (k : Z) : list (Z * Z) :=
  let '(M, E) := d in
  let num := (M * 2 ^ Z.max 0 E)%Z in
  let den := (2 ^ Z.max 0 (- E))%Z in
  let x := (floor_log10 num den + 1 - k)%Z in
  let below := ((num * 10 ^ Z.max 0 (- x)) / (den * 10 ^ Z.max 0 x))%Z in
  let reads (s : Z) :=
    match of_decimal s x with
    | Some (M', E') => ((M' =? M) && (E' =? E))%bool%Z
    | None => false
    end in
  let twice := (2 * num * 10 ^ Z.max 0 (- x))%Z in
  let middle := ((2 * below + 1) * den * 10 ^ Z.max 0 x)%Z in
  let above_first :=
    ((middle <? twice) || ((middle =? twice) && Z.odd below))%bool%Z in
  filter (fun c => reads (fst c))
         (if above_first then [(below + 1, x); (below, x)]%Z
          else [(below, x); (below + 1, x)]%Z).

Fixpoint shortest_from (fuel : nat) (d : Z * Z) (k : Z) : option (Z * Z) :=
  match fuel with
  | O => None
  | S fuel' =>
      match candidates d k with
      | c :: _ => Some c
      | [] => shortest_from fuel' d (k + 1)
      end
  end.

(** The digits [s] and the exponent [x] Number::toString writes for a
    positive double: the fewest digits that are read back as the double, and
    of these the nearest to it.  Seventeen digits are always enough. *)
Definition shortest (d : Z * Z) : option (Z * Z) :=
  if (fst d =? 0)%Z then None else shortest_from 17 d 1.

End Double.

(** [JNum m e] is a number of the platform: zero, or a decimal that is read
    as a finite double and is what Number::toString writes for it. *)
Definition is_double (m e : Z) : bool :=
  if (m =? 0)%Z then (e =? 0)%Z
  else
    match Double.of_decimal (Z.abs m) e with
    | Some d =>
        match Double.shortest d with
        | Some (s, x) =>
            let '(m', e') := JSON.normalize s x in
            ((m' =? Z.abs m) && (e' =? e))%bool%Z
        | None => false
        end
    | None => false
    end.

(** Every number in a value is a number of the platform. *)
Fixpoint all_doubles (v : JSON.Value) : bool :=
  match v with
  | JSON.JNum m e => is_double m e
  | JSON.JArr items => forallb all_doubles items
  | JSON.JObj props => forallb (fun kv => all_doubles (snd kv)) props
  | _ => true
  end.

(** ** The patch computation where the node exists *)



(** * Properties *)

(** ** The model at work *)

Example parse_keeps_platform_order :
  JSON.parse (js "{'b': 1, '10': 2, 'a': 3, '2': 4, 'b': 5}") =
  Some (JSON.JObj [("2", JSON.JNum 4 0); ("10", JSON.JNum 2 0);
                   ("b", JSON.JNum 5 0); ("a", JSON.JNum 3 0)]).
Proof. reflexivity. Qed.

Example parse_numbers :
  JSON.parse "[2.50, 1e2, -0, 12e-1, -7]" =
  Some (JSON.JArr [JSON.JNum 25 (-1); JSON.JNum 100 0; JSON.JNum 0 0;
                   JSON.JNum 12 (-1); JSON.JNum (-7) 0]).
Proof. reflexivity. Qed.

Example parse_rejects :
  map JSON.parse ["01"; "1."; ".5"; "+1"; "[1,]"; js "{'a':1,}"; js "'a"; "nul";
                  "truex"; "{"; EmptyString; js "{a:1}"; "[1 2]"]
  = repeat None 13.
Proof. reflexivity. Qed.

Example parse_escapes :
  JSON.parse (js "'a\nA\/\\'") =
  Some (JSON.JStr (String "a" (String JSON.newline (String "A" (String "/"
          (String JSON.backslash EmptyString)))))).
Proof. reflexivity. Qed.

Example stringify_indents :
  JSON.stringify
    (JSON.JObj [("a", JSON.JArr [JSON.JNum 1 0; JSON.JObj [("b", JSON.JNull)]]);
                ("c", JSON.JStr "x"); ("d", JSON.JArr [])]) 2
  = js "{
  'a': [
    1,
    {
      'b': null
    }
  ],
  'c': 'x',
  'd': []
}".
Proof. reflexivity. Qed.

Example stringify_compact :
  JSON.stringify
    (JSON.JObj [("a", JSON.JArr [JSON.JNum 1 0; JSON.JObj [("b", JSON.JNull)]]);
                ("c", JSON.JStr "x")]) 0
  = js "{'a':[1,{'b':null}],'c':'x'}".
Proof. reflexivity. Qed.

Example number_texts :
  map (fun me => JSON.number_to_string (fst me) (snd me))
      [(0, 0); (-300, 0); (25, -1); (1, -6); (1, -7); (15, -10);
       (100000000000000000000, 0); (1000000000000000000000, 0);
       (-12345, -2)]%Z
  = ["0"; "-300"; "2.5"; "0.000001"; "1e-7"; "1.5e-9";
     "100000000000000000000"; "1e+21"; "-123.45"].
Proof. reflexivity. Qed.

Example normalizeNodeData_single_value :
  normalizeNodeData (Some [mkRow None (PStr "hello") "string"]) = "hello" /\
  normalizeNodeData (Some [mkRow None (PNum 25 (-1)) "number"]) = "2.5" /\
  normalizeNodeData (Some [mkRow None PNull "null"]) = "null".
Proof. repeat split. Qed.

Example normalizeNodeData_object :
  normalizeNodeData
    (Some [mkRow (Some "name") (PStr "Ada") "string";
           mkRow (Some "tags") PNull "array";
           mkRow (Some "age") (PNum 36 0) "number";
           mkRow None (PBool true) "boolean";
           mkRow (Some "name") (PStr "Eve") "string"])
  = js "{
  'name': 'Eve',
  'age': 36
}".
Proof. reflexivity. Qed.

Example normalizeNodeData_proto_after_null :
  normalizeNodeData
    (Some [mkRow (Some "__proto__") PNull "null";
           mkRow (Some "__proto__") (PNum 1 0) "number"])
  = js "{
  '__proto__': 1
}".
Proof. reflexivity. Qed.

(** ** Strings *)

Lemma append_nil_r (s : string) : s ++ EmptyString = s.
Proof. induction s; simpl; congruence. Qed.

Lemma append_assoc (a b c : string) : (a ++ b) ++ c = a ++ (b ++ c).
Proof. induction a; simpl; congruence. Qed.

Lemma length_append (a b : string) :
  String.length (a ++ b) = String.length a + String.length b.
Proof. induction a; simpl; congruence. Qed.

(** ** Path rendering *)

Lemma bracketed_render (seg : Segment) :
  bracketed seg = "[" ++ render_segment seg ++ "]".
Proof.
  destruct seg as [name | i]; simpl; [ | reflexivity ].
  now rewrite append_assoc.
Qed.

Lemma join_brackets (p : JSONPath) (seg : Segment) :
  "[" ++ JSString.join "][" (map render_segment (seg :: p)) ++ "]" =
  brackets (seg :: p).
Proof.
  revert seg; induction p as [ | seg' p IH ]; intros seg.
  - cbn [map JSString.join brackets]. now rewrite bracketed_render, append_nil_r.
  - change (brackets (seg :: seg' :: p))
      with (bracketed seg ++ brackets (seg' :: p)).
    rewrite <- IH, bracketed_render.
    change (JSString.join "][" (map render_segment (seg :: seg' :: p)))
      with (render_segment seg ++ "][" ++
            JSString.join "][" (map render_segment (seg' :: p))).
    rewrite !append_assoc. reflexivity.
Qed.

(** C7. [jsonPathToString] writes [$] followed by one bracket pair per
    segment, an index bare and a property name between double quotes; the
    path [["customer", 0, "name"]] gives [$["customer"][0]["name"]]; the empty
    path and the absent one give [$]. *)
Theorem jsonPathToString_brackets :
  (forall p : JSONPath, jsonPathToString (Some p) = "$" ++ brackets p) /\
  jsonPathToString (Some [Key "customer"; Index 0; Key "name"]) =
    js "$['customer'][0]['name']" /\
  jsonPathToString (Some []) = "$" /\
  jsonPathToString None = "$".
Proof.
  split; [ | repeat split ].
  intros [ | seg p ]; [ reflexivity | ].
  unfold jsonPathToString.
  change ("$[" ++ JSString.join "][" (map render_segment (seg :: p)) ++ "]")
    with ("$" ++ ("[" ++ JSString.join "][" (map render_segment (seg :: p)) ++ "]")).
  now rewrite join_brackets.
Qed.

(** ** Node rows *)

(** C8. An absent row set and an empty one both give the text [{}], which is
    not the empty string. *)
Theorem normalizeNodeData_empty :
  normalizeNodeData None = "{}" /\
  normalizeNodeData (Some []) = "{}" /\
  normalizeNodeData None <> EmptyString /\
  normalizeNodeData (Some []) <> EmptyString.
Proof. repeat split; discriminate. Qed.

(** *** Own properties *)

Lemma get_property_none (name : string) (props : list (string * JSON.Value)) :
  JSON.has_property name props = false -> JSON.get_property name props = None.
Proof.
  induction props as [ | [k w] props IH ]; simpl; [ reflexivity | ].
  destruct (String.eqb k name); simpl; [ discriminate | exact IH ].
Qed.

Lemma get_replace_property (name k : string) (v : JSON.Value)
      (props : list (string * JSON.Value)) :
  JSON.has_property k props = true ->
  JSON.get_property name (JSON.replace_property k v props) =
  if String.eqb k name then Some v else JSON.get_property name props.
Proof.
  induction props as [ | [k' w] props IH ]; simpl; [ discriminate | ].
  destruct (String.eqb_spec k' k) as [-> | Hk]; simpl.
  - intros _. destruct (String.eqb k name); reflexivity.
  - intros H. rewrite (IH H).
    destruct (String.eqb_spec k' name) as [-> | Hn]; [ | reflexivity ].
    destruct (String.eqb_spec k name) as [-> | _]; [ now elim Hk | reflexivity ].
Qed.

Lemma get_insert_index (name k : string) (i : Z) (v : JSON.Value)
      (props : list (string * JSON.Value)) :
  JSON.has_property k props = false ->
  JSON.get_property name (JSON.insert_index i k v props) =
  if String.eqb k name then Some v else JSON.get_property name props.
Proof.
  induction props as [ | [k' w] props IH ]; simpl; [ reflexivity | ].
  destruct (String.eqb_spec k' k) as [-> | Hk]; simpl; [ discriminate | ].
  intros H.
  destruct (JSON.array_index k') as [j | ]; [ destruct (j <? i)%Z | ]; simpl;
    try reflexivity.
  rewrite (IH H).
  destruct (String.eqb_spec k' name) as [-> | Hn]; [ | reflexivity ].
  destruct (String.eqb_spec k name) as [-> | _]; [ now elim Hk | reflexivity ].
Qed.

Lemma get_append_property (name k : string) (v : JSON.Value)
      (props : list (string * JSON.Value)) :
  JSON.has_property k props = false ->
  JSON.get_property name (props ++ [(k, v)]) =
  if String.eqb k name then Some v else JSON.get_property name props.
Proof.
  induction props as [ | [k' w] props IH ]; simpl; [ reflexivity | ].
  destruct (String.eqb_spec k' k) as [-> | Hk]; simpl; [ discriminate | ].
  intros H. rewrite (IH H).
  destruct (String.eqb_spec k' name) as [-> | Hn]; [ | reflexivity ].
  destruct (String.eqb_spec k name) as [-> | _]; [ now elim Hk | reflexivity ].
Qed.

(** After [CreateDataProperty] the object holds the new value under the name
    and what it held before under every other name. *)
Lemma get_define_own (name k : string) (v : JSON.Value)
      (props : list (string * JSON.Value)) :
  JSON.get_property name (JSON.define_own k v props) =
  if String.eqb k name then Some v else JSON.get_property name props.
Proof.
  unfold JSON.define_own.
  destruct (JSON.has_property k props) eqn:H.
  - now apply get_replace_property.
  - destruct (JSON.array_index k).
    + now apply get_insert_index.
    + now apply get_append_property.
Qed.

(** *** The object of [normalizeNodeData] *)

Lemma add_row_get (name : string) (obj : PlainObject) (row : NodeRow) :
  key row <> Some "__proto__" ->
  inherits (add_row obj row) = inherits obj /\
  JSON.get_property name (own (add_row obj row)) =
  if kept row then
    match key row with
    | Some k => if String.eqb k name then Some (to_value (value row))
                else JSON.get_property name (own obj)
    | None => JSON.get_property name (own obj)
    end
  else JSON.get_property name (own obj).
Proof.
  intros Hproto. unfold add_row, kept.
  destruct (negb (String.eqb (type row) "array") && negb (String.eqb (type row) "object"))%bool;
    simpl; [ | now split ].
  destruct (key row) as [k | ] eqn:Hkey; simpl; [ | now split ].
  destruct k as [ | c k ]; simpl; [ now split | ].
  unfold assign.
  destruct (String.eqb_spec (String c k) "__proto__") as [E | _].
  - now rewrite E in Hproto.
  - simpl. split; [ reflexivity | apply get_define_own ].
Qed.

Lemma fold_add_row_get (name : string) (rows : list NodeRow) :
  proto_free rows ->
  forall obj found,
    JSON.get_property name (own obj) = found ->
    JSON.get_property name (own (fold_left add_row rows obj)) =
    fold_left
      (fun found row =>
         if kept row then
           match key row with
           | Some k => if String.eqb k name then Some (to_value (value row)) else found
           | None => found
           end
         else found)
      rows found.
Proof.
  induction rows as [ | row rows IH ]; intros Hfree obj found Hobj; simpl.
  - exact Hobj.
  - apply IH.
    + intros r Hr. apply Hfree. now right.
    + destruct (add_row_get name obj row) as [_ ->].
      * apply Hfree. now left.
      * rewrite Hobj. reflexivity.
Qed.

(** What [normalizeNodeData] does on rows none of which is keyed
    [__proto__]: a single row without a key gives its value as a string; any
    other non-empty row set gives the 2-space serialization of an object that
    holds, under each name, the value of the last kept row with that key. *)
Lemma normalizeNodeData_rows (rows : list NodeRow) :
  proto_free rows ->
  rows <> [] ->
  (forall row, rows = [row] -> truthy (key row) = false ->
     normalizeNodeData (Some rows) = to_string (value row)) /\
  ((forall row, rows = [row] -> truthy (key row) = true) ->
   exists props,
     normalizeNodeData (Some rows) = JSON.stringify (JSON.JObj props) 2 /\
     forall name, JSON.get_property name props = row_value name rows).
Proof.
  intros Hfree Hne. split.
  - intros row -> Hkey. simpl. now rewrite Hkey.
  - intros Hkeyed.
    exists (own (fold_left add_row rows empty_object)). split.
    + destruct rows as [ | row [ | row' rows ] ]; [ now elim Hne | | reflexivity ].
      cbn [normalizeNodeData List.length Nat.eqb andb].
      now rewrite (Hkeyed row eq_refl).
    + intros name. now apply fold_add_row_get.
Qed.

(** C10. On the rows [{key: "__proto__", value: "x", type: "string"}] and
    [{key: "a", value: 1, type: "number"}], both keyed and scalar,
    [normalizeNodeData] gives the serialization of an object that holds [a]
    alone: the row keyed [__proto__] is kept by the filter and lost by the
    assignment. *)
Theorem normalizeNodeData_drops_proto_row :
  forallb kept [mkRow (Some "__proto__") (PStr "x") "string";
                mkRow (Some "a") (PNum 1 0) "number"] = true /\
  normalizeNodeData (Some [mkRow (Some "__proto__") (PStr "x") "string";
                           mkRow (Some "a") (PNum 1 0) "number"])
    = JSON.stringify (JSON.JObj [("a", JSON.JNum 1 0)]) 2 /\
  row_value "__proto__" [mkRow (Some "__proto__") (PStr "x") "string";
                         mkRow (Some "a") (PNum 1 0) "number"]
    = Some (JSON.JStr "x") /\
  JSON.get_property "__proto__" [("a", JSON.JNum 1 0)] = None.
Proof. repeat split. Qed.

(** ** Slices and splices *)

Lemma slice_to_from (n : nat) (s : string) :
  JSString.slice_to n s ++ JSString.slice_from n s = s.
Proof.
  revert s; induction n as [ | n IH ]; intros [ | c s ]; simpl; try reflexivity.
  now rewrite IH.
Qed.

Lemma length_slice_to (n : nat) (s : string) :
  n <= String.length s -> String.length (JSString.slice_to n s) = n.
Proof.
  revert s; induction n as [ | n IH ]; intros [ | c s ]; simpl; intros H;
    try reflexivity; try lia.
  rewrite IH; lia.
Qed.

Lemma slice_to_append (n : nat) (a b : string) :
  n <= String.length a -> JSString.slice_to n (a ++ b) = JSString.slice_to n a.
Proof.
  revert a; induction n as [ | n IH ]; intros [ | c a ]; simpl; intros H;
    try reflexivity; try lia.
  rewrite IH; [ reflexivity | lia ].
Qed.

Lemma slice_from_append (n : nat) (a b : string) :
  String.length a = n -> JSString.slice_from n (a ++ b) = b.
Proof. intros <-. induction a; simpl; [ now destruct b | assumption ]. Qed.

Lemma slice_to_slice_to (n m : nat) (s : string) :
  n <= m -> JSString.slice_to n (JSString.slice_to m s) = JSString.slice_to n s.
Proof.
  revert m s; induction n as [ | n IH ]; intros [ | m ] [ | c s ] H; simpl;
    try reflexivity; try lia.
  rewrite IH; [ reflexivity | lia ].
Qed.

Lemma slice_to_split (a b : nat) (s : string) :
  a <= b ->
  JSString.slice_to b s = JSString.slice_to a s ++ JSString.slice a b s.
Proof.
  unfold JSString.slice.
  revert b s; induction a as [ | a IH ]; intros b s H.
  - simpl. rewrite Nat.sub_0_r. now destruct s.
  - destruct b as [ | b ]; [ lia | ]. destruct s as [ | c s ]; simpl.
    + now destruct (b - a).
    + rewrite (IH b s); [ reflexivity | lia ].
Qed.

(** A splice that stays within the text leaves the text before it and the
    text after it as they were. *)
Lemma splice_append (e : Edit) (text tail : string) :
  offset e + length e <= String.length text ->
  splice (JSString.slice_to (offset e + length e) text ++ tail) e =
  JSString.slice_to (offset e) text ++ content e ++ tail.
Proof.
  intros H. unfold splice.
  rewrite slice_to_append by (rewrite length_slice_to; lia).
  rewrite slice_to_slice_to by lia.
  now rewrite slice_from_append by (now apply length_slice_to).
Qed.

Lemma apply_edits_cons (text : string) (e : Edit) (edits : list Edit) :
  apply_edits text (e :: edits) = splice (apply_edits text edits) e.
Proof. unfold apply_edits. simpl. now rewrite fold_left_app. Qed.

(** Edits listed from left to right, applied last to first: what lies before
    position [from] is untouched, the rest is the original with the spans
    replaced. *)
Lemma apply_edits_in_order (text : string) (edits : list Edit) :
  forall from,
    in_order from (String.length text) edits = true ->
    apply_edits text edits =
    JSString.slice_to from text ++ replace_spans from text edits.
Proof.
  induction edits as [ | e edits IH ]; intros from H.
  - simpl. now rewrite slice_to_from.
  - simpl in H. apply andb_prop in H as [H Hrest]. apply andb_prop in H as [Hfrom Hsize].
    apply Nat.leb_le in Hfrom, Hsize.
    rewrite apply_edits_cons, (IH _ Hrest), splice_append by exact Hsize.
    simpl. rewrite (slice_to_split from (offset e) text Hfrom).
    now rewrite append_assoc.
Qed.

(** ** Sorting descriptors *)

Lemma insert_desc_perm (e : Edit) (l : list Edit) :
  Permutation (insert_desc e l) (e :: l).
Proof.
  induction l as [ | x l IH ]; simpl; [ reflexivity | ].
  destruct (Nat.ltb (offset x) (offset e)); [ reflexivity | ].
  rewrite IH. apply perm_swap.
Qed.

Lemma sort_desc_perm (l : list Edit) : Permutation (sort_desc l) l.
Proof.
  induction l as [ | e l IH ]; simpl; [ reflexivity | ].
  rewrite insert_desc_perm. now constructor.
Qed.

Lemma insert_desc_sorted (e : Edit) (l : list Edit) :
  StronglySorted not_before l -> StronglySorted not_before (insert_desc e l).
Proof.
  induction l as [ | x l IH ]; simpl; intros H.
  - repeat constructor.
  - inversion H as [ | ? ? Hl Hx ]; subst.
    destruct (Nat.ltb_spec (offset x) (offset e)) as [Hlt | Hge].
    + constructor; [ exact H | ]. constructor; [ unfold not_before; lia | ].
      eapply Forall_impl; [ | exact Hx ]. unfold not_before; intros; lia.
    + constructor; [ now apply IH | ].
      apply (Permutation_Forall (Permutation_sym (insert_desc_perm e l))).
      constructor; [ exact Hge | exact Hx ].
Qed.

Lemma sort_desc_sorted (l : list Edit) : StronglySorted not_before (sort_desc l).
Proof.
  induction l as [ | e l IH ]; simpl; [ constructor | now apply insert_desc_sorted ].
Qed.

(** A listing by descending offset is the only one, once no two descriptors
    share an offset. *)
Lemma descending_unique (l2 : list Edit) :
  StronglySorted after l2 ->
  forall l1, StronglySorted not_before l1 -> Permutation l1 l2 -> l1 = l2.
Proof.
  induction l2 as [ | x l2 IH ]; intros H2 l1 H1 HP.
  - now apply Permutation_nil, Permutation_sym.
  - destruct l1 as [ | y l1 ].
    + apply Permutation_nil in HP. discriminate.
    + inversion H2 as [ | ? ? H2' Hx ]; subst.
      inversion H1 as [ | ? ? H1' Hy ]; subst.
      assert (y = x) as ->.
      { assert (Hin : In y (x :: l2)) by (eapply Permutation_in; [ exact HP | now left ]).
        destruct Hin as [-> | Hin]; [ reflexivity | ].
        assert (Hin' : In x (y :: l1))
          by (eapply Permutation_in; [ apply Permutation_sym; exact HP | now left ]).
        destruct Hin' as [-> | Hin']; [ reflexivity | ].
        rewrite Forall_forall in Hx, Hy.
        specialize (Hx _ Hin). specialize (Hy _ Hin').
        unfold after, not_before in *. lia. }
      f_equal. apply IH; [ exact H2' | exact H1' | ].
      now apply Permutation_cons_inv in HP.
Qed.

Lemma in_order_lower (from size : nat) (edits : list Edit) :
  in_order from size edits = true ->
  Forall (fun x => from <= offset x) edits.
Proof.
  revert from; induction edits as [ | e edits IH ]; intros from H; [ constructor | ].
  simpl in H. apply andb_prop in H as [H Hrest]. apply andb_prop in H as [Hfrom _].
  apply Nat.leb_le in Hfrom. constructor; [ exact Hfrom | ].
  eapply Forall_impl; [ | exact (IH _ Hrest) ]. simpl; intros; lia.
Qed.

Lemma sorted_snoc (R : Edit -> Edit -> Prop) (l : list Edit) (a : Edit) :
  StronglySorted R l -> Forall (fun x => R x a) l -> StronglySorted R (l ++ [a]).
Proof.
  induction l as [ | x l IH ]; simpl; intros H Ha.
  - repeat constructor.
  - inversion H; subst. inversion Ha; subst.
    constructor; [ now apply IH | ].
    apply Forall_app. split; [ assumption | now repeat constructor ].
Qed.

Lemma in_order_rev_descending (from size : nat) (edits : list Edit) :
  in_order from size edits = true ->
  NoDup (map offset edits) ->
  StronglySorted after (rev edits).
Proof.
  revert from; induction edits as [ | e edits IH ]; intros from H Hnd; [ constructor | ].
  simpl in H. apply andb_prop in H as [H Hrest]. inversion Hnd as [ | ? ? Hnotin Hnd' ]; subst.
  simpl. apply sorted_snoc; [ now apply (IH _ Hrest) | ].
  apply Forall_forall. intros x Hx. apply In_rev in Hx.
  pose proof (in_order_lower _ _ _ Hrest) as Hlow.
  rewrite Forall_forall in Hlow. specialize (Hlow _ Hx).
  assert (offset x <> offset e).
  { intros E. apply Hnotin. rewrite <- E. now apply in_map. }
  unfold after. lia.
Qed.

(** ** The patch applier *)

(** C4, as the code has it.  The code does not sort: it applies the
    descriptors last to first.  When they are listed from left to right,
    without overlap and within the text, the result is the original text with
    every span replaced by its content; and, no two of them sharing an offset,
    it is what sorting any listing of them by descending offset and splicing
    gives. *)
Theorem apply_edits_left_to_right (text : string) (edits : list Edit) :
  in_order 0 (String.length text) edits = true ->
  apply_edits text edits = replace_spans 0 text edits /\
  (NoDup (map offset edits) ->
   forall listing, Permutation listing edits ->
     apply_sorted text listing = apply_edits text edits).
Proof.
  intros H. split.
  - now rewrite (apply_edits_in_order text edits 0 H).
  - intros Hnd listing HP. unfold apply_sorted, apply_edits. f_equal.
    apply descending_unique.
    + exact (in_order_rev_descending _ _ _ H Hnd).
    + apply sort_desc_sorted.
    + rewrite sort_desc_perm, HP. apply Permutation_rev.
Qed.

Lemma apply_edits_left_to_right_witness :
  apply_edits "abcdef" [mkEdit 0 1 "XX"; mkEdit 3 1 "Y"] = "XXbcYef" /\
  apply_sorted "abcdef" [mkEdit 3 1 "Y"; mkEdit 0 1 "XX"] = "XXbcYef".
Proof.
  destruct (apply_edits_left_to_right "abcdef" [mkEdit 0 1 "XX"; mkEdit 3 1 "Y"] eq_refl)
    as [Hspans Hsorted].
  split.
  - exact Hspans.
  - rewrite (Hsorted
               (NoDup_cons 0 (fun H : In 0 [3] =>
                                match H with
                                | or_introl E => O_S 2 (eq_sym E)
                                | or_intror F => F
                                end)
                  (NoDup_cons 3 (fun F : In 3 [] => F) (NoDup_nil nat)))
               [mkEdit 3 1 "Y"; mkEdit 0 1 "XX"]
               (perm_swap _ _ _)).
    exact Hspans.
Defined.

(** The same two descriptors in the other listing give another text: the
    result of the code depends on the order in which it receives them. *)
Lemma apply_edits_order_matters :
  ~ (forall (text : string) (edits listing : list Edit),
       in_order 0 (String.length text) edits = true ->
       Permutation listing edits ->
       apply_edits text listing = apply_edits text edits).
Proof.
  intros H.
  specialize (H "abcdef" [mkEdit 0 1 "XX"; mkEdit 3 1 "Y"]
                [mkEdit 3 1 "Y"; mkEdit 0 1 "XX"] eq_refl (perm_swap _ _ _)).
  discriminate H.
Qed.

(** ** applyEditToJson *)

Section ApplyEditFacts.

Variable jsoncModify : string -> JSONPath -> JSON.Value -> option (list Edit).

Lemma root_mode (originalJson : string) (path : option JSONPath)
      (newValueRaw : option string) :
  path = None \/ path = Some [] ->
  applyEditToJson_try jsoncModify originalJson path newValueRaw =
  match JSON.parse originalJson with
  | Some _ => Some (JSON.stringify (written newValueRaw) 2)
  | None => None
  end.
Proof.
  intros [-> | ->]; unfold applyEditToJson_try;
    destruct (JSON.parse originalJson); try reflexivity;
    destruct newValueRaw; reflexivity.
Qed.

Lemma map_segments (path : JSONPath) :
  map (fun p => match p with Index i => Index i | Key s => Key s end) path = path.
Proof.
  induction path as [ | [name | i] path IH ]; simpl; congruence.
Qed.

Lemma path_mode (originalJson : string) (seg : Segment) (path : JSONPath)
      (newValueRaw : option string) :
  applyEditToJson_try jsoncModify originalJson (Some (seg :: path)) newValueRaw =
  match jsoncModify originalJson (seg :: path) (written newValueRaw) with
  | Some edits => Some (apply_edits originalJson edits)
  | None => None
  end.
Proof.
  unfold applyEditToJson_try. rewrite map_segments.
  destruct newValueRaw; reflexivity.
Qed.

End ApplyEditFacts.

(** The result of [applyEditToJson], case by case. *)
Lemma applyEditToJson_cases
      (jsoncModify : string -> JSONPath -> JSON.Value -> option (list Edit))
      (originalJson : string) (path : option JSONPath)
      (newValueRaw : option string) :
  applyEditToJson jsoncModify originalJson path newValueRaw =
    match path with
    | None | Some [] =>
        match JSON.parse originalJson with
        | Some _ => JSON.stringify (written newValueRaw) 2
        | None => originalJson
        end
    | Some (seg :: rest) =>
        match jsoncModify originalJson (seg :: rest) (written newValueRaw) with
        | Some edits => apply_edits originalJson edits
        | None => originalJson
        end
    end.
Proof.
  unfold applyEditToJson.
  destruct path as [ [ | seg rest ] | ].
  - rewrite root_mode by now right. now destruct (JSON.parse originalJson).
  - rewrite path_mode. now destruct (jsoncModify _ _ _).
  - rewrite root_mode by now left. now destruct (JSON.parse originalJson).
Qed.




(** Root mode on a document that parses. *)
Lemma root_edit
      (jsoncModify : string -> JSONPath -> JSON.Value -> option (list Edit))
      (originalJson : string) (path : option JSONPath) (newValueRaw : option string) :
  JSON.parse originalJson <> None ->
  path = None \/ path = Some [] ->
  applyEditToJson jsoncModify originalJson path newValueRaw =
  JSON.stringify (written newValueRaw) 2.
Proof.
  intros Hdoc Hpath. unfold applyEditToJson.
  rewrite (root_mode jsoncModify originalJson path newValueRaw Hpath).
  now destruct (JSON.parse originalJson).
Qed.

(** C3, as the code has it.  With an empty or absent path and a document
    that parses, the result is the coerced value serialized with two spaces:
    the same for every such document, and the patch computation has no part in
    it. *)
Theorem applyEditToJson_root
        (jsoncModify : string -> JSONPath -> JSON.Value -> option (list Edit))
        (originalJson : string) (path : option JSONPath) (newValueRaw : string) :
  JSON.parse originalJson <> None ->
  path = None \/ path = Some [] ->
  applyEditToJson jsoncModify originalJson path (Some newValueRaw) =
    JSON.stringify (coerce newValueRaw) 2 /\
  forall (otherModify : string -> JSONPath -> JSON.Value -> option (list Edit))
         (otherJson : string),
    JSON.parse otherJson <> None ->
    applyEditToJson otherModify otherJson path (Some newValueRaw) =
    applyEditToJson jsoncModify originalJson path (Some newValueRaw).
Proof.
  intros Hdoc Hpath. split.
  - exact (root_edit jsoncModify originalJson path (Some newValueRaw) Hdoc Hpath).
  - intros otherModify otherJson Hother.
    now rewrite !root_edit.
Qed.

Lemma applyEditToJson_root_witness :
  applyEditToJson (replace_span 0 0) (js "{'a': 1}") (Some []) (Some "[1,true]") =
    JSON.stringify (JSON.JArr [JSON.JNum 1 0; JSON.JBool true]) 2 /\
  applyEditToJson append_item "[7]" (Some []) (Some "[1,true]") =
    applyEditToJson (replace_span 0 0) (js "{'a': 1}") (Some []) (Some "[1,true]").
Proof.
  refine ((fun H => conj (proj1 H) (proj2 H append_item "[7]" _))
            (applyEditToJson_root (replace_span 0 0) (js "{'a': 1}") (Some [])
               "[1,true]" _ _)).
  - discriminate.
  - discriminate.
  - right. reflexivity.
Defined.

(** A document that does not parse is returned as it is, whatever the new
    value: root mode does depend on the prior document. *)
Lemma root_mode_keeps_invalid_document :
  ~ (forall (jsoncModify : string -> JSONPath -> JSON.Value -> option (list Edit))
            (originalJson newValueRaw : string),
       applyEditToJson jsoncModify originalJson (Some []) (Some newValueRaw) =
       JSON.stringify (coerce newValueRaw) 2).
Proof.
  intros H. specialize (H (replace_span 0 0) "{" "1"). discriminate H.
Qed.

(** C9, as the code has it.  Without a raw value the text [null] is
    parsed, so that the edit is the edit of the value [null], for every
    document and every path, and not that of the string [undefined].  With an
    empty or absent path and a document that parses the result is the text
    [null]; with a path, the patch computation is given the value [null] and
    its descriptors are applied.  A document that does not parse (with an
    empty or absent path) and a patch computation that raises leave the
    document as it is: then nothing is written. *)
Theorem applyEditToJson_absent_value
        (jsoncModify : string -> JSONPath -> JSON.Value -> option (list Edit))
        (originalJson : string) (path : option JSONPath) :
  written None = JSON.JNull /\
  written (Some "undefined") = JSON.JStr "undefined" /\
  applyEditToJson jsoncModify originalJson path None =
    applyEditToJson jsoncModify originalJson path (Some "null") /\
  (path = None \/ path = Some [] ->
   JSON.parse originalJson <> None ->
   applyEditToJson jsoncModify originalJson path None = "null") /\
  (path = None \/ path = Some [] ->
   JSON.parse originalJson = None ->
   applyEditToJson jsoncModify originalJson path None = originalJson) /\
  (forall seg rest,
     path = Some (seg :: rest) ->
     applyEditToJson jsoncModify originalJson path None =
     match jsoncModify originalJson (seg :: rest) JSON.JNull with
     | Some edits => apply_edits originalJson edits
     | None => originalJson
     end).
Proof.
  assert (Hnone := applyEditToJson_cases jsoncModify originalJson path None).
  assert (Hnull := applyEditToJson_cases jsoncModify originalJson path (Some "null")).
  change (written (Some "null")) with (written None) in Hnull.
  split; [ reflexivity | ]. split; [ reflexivity | ].
  split; [ now rewrite Hnone, Hnull | ].
  split; [ | split ].
  - intros Hpath Hdoc. now rewrite (root_edit jsoncModify originalJson path None Hdoc Hpath).
  - intros [-> | ->] Hdoc; now rewrite Hnone, Hdoc.
  - intros seg rest ->. exact Hnone.
Qed.

Lemma applyEditToJson_absent_value_witness :
  applyEditToJson (replace_span 5 1) (js "{'a':1}") (Some []) None = "null" /\
  applyEditToJson (replace_span 5 1) (js "{'a':1}") (Some [Key "a"]) None =
    js "{'a':null}".
Proof.
  split.
  - refine (proj1 (proj2 (proj2 (proj2
              (applyEditToJson_absent_value (replace_span 5 1) (js "{'a':1}")
                 (Some [])))))
              _ _).
    + right. reflexivity.
    + discriminate.
  - refine (proj2 (proj2 (proj2 (proj2 (proj2
              (applyEditToJson_absent_value (replace_span 5 1) (js "{'a':1}")
                 (Some [Key "a"]))))))
              (Key "a") [] _).
    reflexivity.
Defined.

(** With an empty path and a document that does not parse, the absent value
    writes nothing: the document is returned as it is, not the text [null]. *)
Lemma absent_value_keeps_invalid_document :
  ~ (forall (jsoncModify : string -> JSONPath -> JSON.Value -> option (list Edit))
            (originalJson : string),
       applyEditToJson jsoncModify originalJson (Some []) None =
       JSON.stringify JSON.JNull 2).
Proof.
  intros H. specialize (H (replace_span 0 0) "{"). discriminate H.
Qed.

(** ** Decimal digits *)

Lemma digit_char (k : nat) :
  k < 10 ->
  JSString.is_digit (ascii_of_nat (48 + k)) = true /\
  JSString.digit_value (ascii_of_nat (48 + k)) = Z.of_nat k /\
  (Ascii.eqb (ascii_of_nat (48 + k)) "0" = true <-> k = 0).
Proof.
  intros H.
  do 10 (destruct k as [ | k ]; [ repeat split; try discriminate; reflexivity | ]).
  lia.
Qed.

Lemma digits_onto_tail (fuel : nat) (n : Z) (tail : string) :
  JSString.digits_onto fuel n tail =
  JSString.digits_onto fuel n EmptyString ++ tail.
Proof.
  revert n tail; induction fuel as [ | fuel IH ]; intros n tail; simpl; [ reflexivity | ].
  destruct (n <? 10)%Z; [ reflexivity | ].
  rewrite IH, (IH _ (String _ EmptyString)), append_assoc. reflexivity.
Qed.

Lemma log2_tenth (n : Z) : (10 <= n -> Z.log2 (n / 10) < Z.log2 n)%Z.
Proof.
  intros H.
  assert (Hh : (0 < n / 2)%Z) by (apply Z.div_str_pos; lia).
  apply Z.le_lt_trans with (Z.log2 (n / 2)).
  - apply Z.log2_le_mono. apply Z.div_le_compat_l; lia.
  - apply Z.lt_le_trans with (Z.log2 (2 * (n / 2))).
    + rewrite Z.log2_double by exact Hh. lia.
    + apply Z.log2_le_mono. apply Z.mul_div_le. lia.
Qed.

Lemma read_digits_all (a : string) :
  all_digits a = true ->
  forall s acc count,
    JSString.read_digits (a ++ s) acc count =
    JSString.read_digits s (digits_value a acc) (count + String.length a).
Proof.
  induction a as [ | c a IH ]; simpl; intros H s acc count.
  - now rewrite Nat.add_0_r.
  - apply andb_prop in H as [Hc Ha]. rewrite Hc, (IH Ha). f_equal. lia.
Qed.

Lemma digits_value_append (a b : string) (acc : Z) :
  digits_value (a ++ b) acc = digits_value b (digits_value a acc).
Proof. revert acc; induction a; simpl; intros; [ reflexivity | apply IHa ]. Qed.

Lemma all_digits_append (a b : string) :
  all_digits (a ++ b) = (all_digits a && all_digits b)%bool.
Proof. induction a; simpl; [ reflexivity | now rewrite IHa, andb_assoc ]. Qed.

Lemma digits_onto_spec (fuel : nat) :
  forall n : Z,
    (0 <= n)%Z -> (Z.log2 n < Z.of_nat fuel)%Z ->
    let d := JSString.digits_onto fuel n EmptyString in
    all_digits d = true /\
    (forall acc, digits_value d acc = (acc * 10 ^ Z.of_nat (String.length d) + n)%Z) /\
    exists c r, d = String c r /\ (Ascii.eqb c "0" = true <-> n = 0%Z).
Proof.
  induction fuel as [ | fuel IH ]; intros n Hn Hfuel; [ pose proof (Z.log2_nonneg n); lia | ].
  cbn [JSString.digits_onto].
  assert (Hmod : (0 <= n mod 10 < 10)%Z) by (apply Z.mod_pos_bound; lia).
  destruct (digit_char (Z.to_nat (n mod 10))) as (Hd & Hv & Hz); [ lia | ].
  rewrite Z2Nat.id in Hv by lia.
  set (dc := ascii_of_nat (48 + Z.to_nat (n mod 10))) in *. clearbody dc.
  destruct (Z.ltb_spec n 10) as [Hlt | Hge].
  - assert (Hsmall : (n mod 10 = n)%Z) by (apply Z.mod_small; lia).
    cbv zeta. repeat split.
    + cbn [all_digits]. now rewrite Hd.
    + intros acc. cbn [digits_value String.length]. rewrite Hv, Hsmall.
      change (Z.of_nat 1) with 1%Z. lia.
    + exists dc, EmptyString. split; [ reflexivity | ]. rewrite Hz. lia.
  - rewrite digits_onto_tail.
    destruct (IH (n / 10)%Z) as (Hall & Hval & c & r & Hcr & Hc).
    + apply Z.div_pos; lia.
    + pose proof (log2_tenth n Hge). lia.
    + cbv zeta in Hall, Hval, Hcr |- *.
      set (d := JSString.digits_onto fuel (n / 10) EmptyString) in *. clearbody d.
      repeat split.
      * rewrite all_digits_append, Hall. cbn [all_digits]. now rewrite Hd.
      * intros acc.
        rewrite digits_value_append, Hval, length_append.
        cbn [digits_value String.length]. rewrite Hv.
        rewrite Nat2Z.inj_add, Z.pow_add_r by lia.
        change (10 ^ Z.of_nat 1)%Z with 10%Z.
        pose proof (Z.div_mod n 10). lia.
      * exists c, (r ++ String dc EmptyString).
        split; [ now rewrite Hcr | ]. rewrite Hc.
        assert (0 < n / 10)%Z by (apply Z.div_str_pos; lia).
        lia.
Qed.

(** ** Number literals *)

Lemma digits_spec (n : Z) :
  (0 <= n)%Z ->
  all_digits (JSString.digits n) = true /\
  (forall acc, digits_value (JSString.digits n) acc =
               (acc * 10 ^ Z.of_nat (String.length (JSString.digits n)) + n)%Z) /\
  exists c r, JSString.digits n = String c r /\ (Ascii.eqb c "0" = true <-> n = 0%Z).
Proof.
  intros H. apply digits_onto_spec; [ exact H | ].
  pose proof (Z.log2_nonneg n). lia.
Qed.

Lemma read_digits_stop (s : string) (acc : Z) (count : nat) :
  stops s = true -> JSString.read_digits s acc count = (acc, count, s).
Proof.
  destruct s as [ | c s ]; simpl; [ reflexivity | ].
  now destruct (JSString.is_digit c).
Qed.

Lemma read_digits_run (a s : string) (acc : Z) (count : nat) :
  all_digits a = true -> stops s = true ->
  JSString.read_digits (a ++ s) acc count =
  (digits_value a acc, count + String.length a, s).
Proof.
  intros Ha Hs. now rewrite read_digits_all, read_digits_stop.
Qed.

Lemma delimiter_cases (c : ascii) :
  is_delimiter c = true ->
  c = ","%char \/ c = "]"%char \/ c = "}"%char \/ c = JSON.newline.
Proof.
  unfold is_delimiter. intros H.
  repeat (apply orb_prop in H as [H | H]);
    apply Ascii.eqb_eq in H; auto.
Qed.

Lemma delimited_stops (s : string) :
  delimited s = true ->
  stops s = true /\
  JSON.read_fraction s = Some (0%Z, 0, s) /\
  JSON.read_exponent s = Some (0%Z, s).
Proof.
  destruct s as [ | c s ]; simpl; [ now repeat split | ].
  intros H. apply delimiter_cases in H as [-> | [-> | [-> | ->]]]; now repeat split.
Qed.

Lemma digits_value_shift (a : string) (acc : Z) :
  digits_value a acc = (acc * 10 ^ Z.of_nat (String.length a) + digits_value a 0)%Z.
Proof.
  revert acc; induction a as [ | c a IH ]; intros acc; simpl String.length.
  - simpl. lia.
  - cbn [digits_value]. rewrite IH, (IH (10 * 0 + _)%Z).
    rewrite Nat2Z.inj_succ, Z.pow_succ_r by lia. lia.
Qed.

Lemma exp_text_read (x : Z) (rest : string) :
  delimited rest = true ->
  JSON.read_exponent (exp_text (Some x) ++ rest) = Some (x, rest).
Proof.
  intros Hrest. apply delimited_stops in Hrest as (Hstop & _ & _).
  unfold exp_text.
  destruct (Z.leb_spec 0 x) as [Hx | Hx]; rewrite append_assoc.
  - destruct (digits_spec x Hx) as (Hall & Hval & c & r & Hcr & _).
    set (t := JSString.digits x ++ rest).
    change (JSON.read_exponent ("e+" ++ t)) with (JSON.read_exponent_digits false t).
    subst t. unfold JSON.read_exponent_digits.
    rewrite (read_digits_run _ _ 0 0 Hall Hstop), Hval, Hcr. simpl. f_equal.
  - destruct (digits_spec (- x)%Z) as (Hall & Hval & c & r & Hcr & _); [ lia | ].
    set (t := JSString.digits (- x) ++ rest).
    change (JSON.read_exponent ("e-" ++ t)) with (JSON.read_exponent_digits true t).
    subst t. unfold JSON.read_exponent_digits.
    rewrite (read_digits_run _ _ 0 0 Hall Hstop), Hval, Hcr. simpl. f_equal. f_equal. lia.
Qed.

Lemma exp_text_stops (x : option Z) (rest : string) :
  delimited rest = true ->
  stops (exp_text x ++ rest) = true /\
  JSON.read_fraction (exp_text x ++ rest) = Some (0%Z, 0, exp_text x ++ rest).
Proof.
  intros Hrest. destruct x as [x | ]; simpl.
  - destruct (0 <=? x)%Z; now split.
  - apply delimited_stops in Hrest. tauto.
Qed.

Lemma frac_text_stops (f : string) (x : option Z) (rest : string) :
  delimited rest = true -> stops (frac_text f ++ exp_text x ++ rest) = true.
Proof.
  intros Hrest. destruct f as [ | c f ]; [ | reflexivity ].
  now apply exp_text_stops.
Qed.

Lemma read_fraction_text (f : string) (x : option Z) (rest : string) :
  all_digits f = true -> delimited rest = true ->
  JSON.read_fraction (frac_text f ++ exp_text x ++ rest) =
  Some (digits_value f 0, String.length f, exp_text x ++ rest).
Proof.
  intros Hf Hrest. destruct (exp_text_stops x rest Hrest) as [Hstop Hnone].
  destruct f as [ | c f ]; [ exact Hnone | ].
  set (s3 := exp_text x ++ rest) in *.
  change (frac_text (String c f) ++ s3) with (String "." (String c f ++ s3)).
  cbn [JSON.read_fraction]. change (Ascii.eqb "." ".") with true. cbv iota.
  now rewrite (read_digits_run _ _ 0 0 Hf Hstop).
Qed.

Lemma read_exponent_text (x : option Z) (rest : string) :
  delimited rest = true ->
  JSON.read_exponent (exp_text x ++ rest) =
  Some (match x with Some v => v | None => 0%Z end, rest).
Proof.
  intros Hrest. destruct x as [x | ].
  - now apply exp_text_read.
  - apply delimited_stops in Hrest. tauto.
Qed.

(** A literal made of an integer part, a fraction and an exponent is read
    back as the number these parts denote. *)
Lemma parse_unsigned_parts (negative : bool) (i f : string) (x : option Z)
      (rest : string) :
  all_digits i = true -> int_text_ok i -> all_digits f = true ->
  delimited rest = true ->
  JSON.parse_unsigned negative (i ++ frac_text f ++ exp_text x ++ rest) =
  Some (JSON.make_number negative (digits_value i 0) (digits_value f 0)
          (String.length f) (match x with Some v => v | None => 0%Z end),
        rest).
Proof.
  intros Hi Hok Hf Hrest.
  set (s2 := frac_text f ++ exp_text x ++ rest).
  assert (Hs2 : stops s2 = true) by now apply frac_text_stops.
  assert (Hint :
    JSON.parse_unsigned negative (i ++ s2) =
    match JSON.read_fraction s2 with
    | Some (frac_part, frac_len, s3) =>
        match JSON.read_exponent s3 with
        | Some (exponent, s4) =>
            Some (JSON.make_number negative (digits_value i 0) frac_part frac_len exponent, s4)
        | None => None
        end
    | None => None
    end).
  { destruct Hok as [-> | (c & r & -> & Hc)].
    - reflexivity.
    - simpl in Hi. apply andb_prop in Hi as [Hc' Hr].
      change (String c r ++ s2) with (String c (r ++ s2)).
      cbn [JSON.parse_unsigned]. rewrite Hc', Hc.
      change (String c (r ++ s2)) with (String c r ++ s2).
      rewrite (read_digits_run (String c r) s2 0 0); [ reflexivity | | exact Hs2 ].
      simpl. now rewrite Hc', Hr. }
  rewrite Hint. subst s2.
  rewrite (read_fraction_text f x rest Hf Hrest).
  now rewrite (read_exponent_text x rest Hrest).
Qed.

Lemma normalize_integer (m e : Z) :
  (m <> 0 -> 0 <= e -> JSON.normalize m e = (m * 10 ^ e, 0))%Z.
Proof.
  intros Hm He. unfold JSON.normalize.
  destruct (Z.eqb_spec m 0); [ contradiction | ].
  destruct (Z.leb_spec 0 e); [ reflexivity | lia ].
Qed.

Lemma normalize_fraction (m e : Z) :
  (e < 0 -> m mod 10 <> 0 -> JSON.normalize m e = (m, e))%Z.
Proof.
  intros He Hm. unfold JSON.normalize.
  destruct (Z.eqb_spec m 0) as [-> | _]; [ now elim Hm | ].
  destruct (Z.leb_spec 0 e); [ lia | ].
  destruct (Z.to_nat (- e)) as [ | fuel ] eqn:E; [ lia | ].
  simpl. destruct (Z.ltb_spec e 0); [ | lia ].
  destruct (Z.eqb_spec (m mod 10) 0); [ contradiction | reflexivity ].
Qed.

Lemma make_number_normal (negative : bool) (ip fp : Z) (fl : nat) (x m e : Z) :
  JSON.normalize (ip * 10 ^ Z.of_nat fl + fp) (x - Z.of_nat fl) = (m, e) ->
  JSON.make_number negative ip fp fl x = JSON.JNum (if negative then (- m)%Z else m) e.
Proof. intros H. unfold JSON.make_number. now rewrite H. Qed.

Lemma digits_value_zeros (j : nat) (acc : Z) :
  all_digits (JSString.replicate j "0") = true /\
  digits_value (JSString.replicate j "0") acc = (acc * 10 ^ Z.of_nat j)%Z /\
  String.length (JSString.replicate j "0") = j.
Proof.
  revert acc; induction j as [ | j IH ]; intros acc.
  - simpl. repeat split. lia.
  - destruct (IH (10 * acc + 0)%Z) as (Ha & Hv & Hl).
    cbn [JSString.replicate all_digits digits_value String.length].
    change (JSString.is_digit "0") with true. change (JSString.digit_value "0") with 0%Z.
    rewrite Ha, Hv, Hl, Nat2Z.inj_succ, Z.pow_succ_r by lia.
    repeat split. lia.
Qed.

Lemma strip_rev_spec (l : list ascii) :
  exists j, l = (repeat "0"%char j ++ JSON.strip_trailing_zeros_rev l)%list /\
            (forall r, JSON.strip_trailing_zeros_rev l <> "0"%char :: r).
Proof.
  induction l as [ | c l (j & Hj & Hhead) ].
  - exists 0. split; [ reflexivity | discriminate ].
  - destruct (Ascii.eqb_spec c "0") as [-> | Hc].
    + exists (S j). change (JSON.strip_trailing_zeros_rev ("0"%char :: l))
        with (JSON.strip_trailing_zeros_rev l).
      split; [ simpl; now rewrite <- Hj | exact Hhead ].
    + exists 0.
      assert (E : JSON.strip_trailing_zeros_rev (c :: l) = c :: l).
      { destruct c as [[] [] [] [] [] [] [] []]; try reflexivity. now elim Hc. }
      rewrite E. split; [ reflexivity | ]. intros r Hr. now injection Hr.
Qed.

Lemma string_of_list_append (a b : list ascii) :
  string_of_list_ascii (a ++ b)%list = string_of_list_ascii a ++ string_of_list_ascii b.
Proof. induction a; simpl; congruence. Qed.

Lemma string_of_repeat (c : ascii) (j : nat) :
  string_of_list_ascii (repeat c j) = JSString.replicate j c.
Proof. induction j; simpl; congruence. Qed.

(** Stripping the trailing zeros of digits that start with another digit
    keeps the first one and takes zeros away at the end only. *)
Lemma strip_trailing_zeros_spec (c : ascii) (r : string) :
  Ascii.eqb c "0" = false ->
  exists r' j,
    JSON.strip_trailing_zeros (String c r) = String c r' /\
    String c r = String c r' ++ JSString.replicate j "0".
Proof.
  intros Hc. unfold JSON.strip_trailing_zeros.
  destruct (strip_rev_spec (rev (list_ascii_of_string (String c r)))) as (j & Hj & Hhead).
  set (kept := JSON.strip_trailing_zeros_rev (rev (list_ascii_of_string (String c r)))) in *.
  assert (E : list_ascii_of_string (String c r) = (rev kept ++ repeat "0"%char j)%list).
  { rewrite <- (rev_involutive (list_ascii_of_string (String c r))), Hj.
    rewrite rev_app_distr. f_equal.
    clear. induction j; simpl; [ reflexivity | ].
    rewrite IHj. clear. induction j; simpl; congruence. }
  destruct (rev kept) as [ | c' k' ] eqn:Hk.
  - simpl in E. destruct j; [ discriminate | ]. simpl in E. injection E as -> _.
    discriminate.
  - simpl in E. injection E as <- E'.
    exists (string_of_list_ascii k'), j. split; [ reflexivity | ].
    rewrite <- (string_of_list_ascii_of_string r), E', string_of_list_append,
      string_of_repeat. reflexivity.
Qed.

Lemma number_to_string_body (m e : Z) :
  JSON.number_to_string m e =
  if (m =? 0)%Z then "0"
  else (if (m <? 0)%Z then "-" else EmptyString)
         ++ number_body (JSString.digits (Z.abs m)) e.
Proof. reflexivity. Qed.

Lemma exponential_parts (c : ascii) (r : string) (n : Z) :
  JSON.exponential (String c r) n =
  String c EmptyString ++ frac_text r ++ exp_text (Some (n - 1)%Z).
Proof.
  unfold JSON.exponential, exp_text, JSString.of_Z.
  set (x := (n - 1)%Z).
  assert (E : (if (0 <=? x)%Z
               then "e+" ++ (if (x <? 0)%Z then String "-" (JSString.digits (- x)) else JSString.digits x)
               else "e-" ++ (if (- x <? 0)%Z then String "-" (JSString.digits (- - x)) else JSString.digits (- x)))
              = (if (0 <=? x)%Z then "e+" ++ JSString.digits x else "e-" ++ JSString.digits (- x))).
  { destruct (Z.leb_spec 0 x).
    - destruct (Z.ltb_spec x 0); [ lia | reflexivity ].
    - destruct (Z.ltb_spec (- x) 0); [ lia | reflexivity ]. }
  rewrite E. destruct r as [ | c' r ]; reflexivity.
Qed.

Lemma frac_text_nonempty (f : string) :
  0 < String.length f -> frac_text f = "." ++ f.
Proof. destruct f; simpl; [ lia | reflexivity ]. Qed.

Lemma length_slice_from (n : nat) (s : string) :
  String.length (JSString.slice_from n s) = String.length s - n.
Proof.
  revert s; induction n as [ | n IH ]; intros [ | c s ]; simpl; try reflexivity.
  - apply IH.
Qed.

Lemma all_digits_slices (n : nat) (d : string) :
  all_digits d = true ->
  all_digits (JSString.slice_to n d) = true /\
  all_digits (JSString.slice_from n d) = true.
Proof.
  intros H. rewrite <- (slice_to_from n d), all_digits_append in H.
  now apply andb_prop in H.
Qed.

(** The text [number_to_string] writes after the sign is an integer part, a
    fraction and an exponent that denote the number. *)
Lemma number_body_parts (a e : Z) :
  (0 < a)%Z -> canonical_number a e = true ->
  exists i f x,
    number_body (JSString.digits a) e = i ++ frac_text f ++ exp_text x /\
    all_digits i = true /\ int_text_ok i /\ all_digits f = true /\
    JSON.normalize
      (digits_value i 0 * 10 ^ Z.of_nat (String.length f) + digits_value f 0)
      (match x with Some v => v | None => 0%Z end - Z.of_nat (String.length f))
    = (a, e).
Proof.
  intros Ha Hcan.
  unfold canonical_number in Hcan. apply andb_prop in Hcan as [He Hmod].
  apply Z.leb_le in He.
  destruct (digits_spec a) as (Hall & Hval & c & r & Hcr & Hc); [ lia | ].
  assert (Hc0 : Ascii.eqb c "0" = false).
  { destruct (Ascii.eqb c "0"); [ | reflexivity ]. destruct Hc as [Hc _]. specialize (Hc eq_refl). lia. }
  clear Hc. specialize (Hval 0%Z). rewrite Z.mul_0_l, Z.add_0_l in Hval.
  unfold number_body.
  set (d := JSString.digits a) in *. clearbody d. subst d.
  set (k0 := Z.of_nat (String.length (String c r))).
  assert (Hk0 : k0 = (1 + Z.of_nat (String.length r))%Z) by (unfold k0; simpl String.length; lia).
  clearbody k0.
  pose proof (digits_value_shift r (digits_value (String c EmptyString) 0)) as Hsplit.
  change (digits_value r (digits_value (String c EmptyString) 0))
    with (digits_value (String c r) 0) in Hsplit.
  cbn [all_digits] in Hall. apply andb_prop in Hall as [Hdc Hr].
  assert (Hone : all_digits (String c EmptyString) = true) by (simpl; now rewrite Hdc).
  assert (Hok : int_text_ok (String c EmptyString)) by (right; eauto).
  destruct (Z.eqb_spec e 0) as [-> | He0].
  - (* an integer *)
    destruct (Z.leb_spec k0 21) as [Hk | Hk].
    + exists (String c r), EmptyString, None. repeat split.
      * now rewrite !append_nil_r.
      * simpl. now rewrite Hdc, Hr.
      * right; eauto.
      * simpl String.length. simpl digits_value at 2.
        rewrite Hval. replace (a * 10 ^ Z.of_nat 0 + 0)%Z with a by (simpl; lia).
        rewrite normalize_integer by lia. f_equal. simpl; lia.
    + destruct (strip_trailing_zeros_spec c r Hc0) as (r' & j & Hstrip & Hzeros).
      rewrite Hstrip, exponential_parts.
      exists (String c EmptyString), r', (Some (k0 + 0 - 1)%Z).
      destruct (digits_value_zeros j (digits_value (String c r') 0)) as (Hz & Hzv & Hzl).
      assert (Hr' : all_digits r' = true).
      { assert (H := Hr). injection Hzeros as Hr0. rewrite Hr0, all_digits_append in H.
        now apply andb_prop in H. }
      repeat split; try assumption.
      pose proof (digits_value_shift r' (digits_value (String c EmptyString) 0)) as Hsplit'.
      change (digits_value r' (digits_value (String c EmptyString) 0))
        with (digits_value (String c r') 0) in Hsplit'.
      rewrite <- Hsplit'.
      assert (Hlen : String.length r = String.length r' + j).
      { injection Hzeros as Hr0. now rewrite Hr0, length_append, Hzl. }
      assert (Hav : a = (digits_value (String c r') 0 * 10 ^ Z.of_nat j)%Z).
      { rewrite <- Hval, Hzeros, digits_value_append. exact Hzv. }
      replace (k0 + 0 - 1 - Z.of_nat (String.length r'))%Z with (Z.of_nat j) by lia.
      rewrite normalize_integer; [ now rewrite <- Hav | | lia ].
      intros E. rewrite E in Hav. lia.
  - (* a fraction *)
    assert (Hm : (a mod 10 <> 0)%Z).
    { destruct (Z.eqb_spec e 0); [ contradiction | ]. simpl in Hmod.
      destruct (Z.eqb_spec (a mod 10) 0); [ discriminate | assumption ]. }
    set (n := (k0 + e)%Z).
    assert (Hn : n = (k0 + e)%Z) by reflexivity. clearbody n.
    destruct ((0 <? n)%Z && (n <=? 21)%Z)%bool eqn:Hn1.
    + apply andb_prop in Hn1 as [Hn0 _]. apply Z.ltb_lt in Hn0.
      set (i := JSString.slice_to (Z.to_nat n) (String c r)).
      set (f := JSString.slice_from (Z.to_nat n) (String c r)).
      assert (Hif : i ++ f = String c r) by apply slice_to_from.
      assert (Hli : String.length i = Z.to_nat n).
      { apply length_slice_to. simpl String.length. lia. }
      assert (Hlf : String.length f = String.length (String c r) - Z.to_nat n)
        by apply length_slice_from.
      simpl String.length in Hlf.
      destruct (all_digits_slices (Z.to_nat n) (String c r)) as [Hi Hf];
        [ simpl; now rewrite Hdc, Hr | ].
      exists i, f, None. repeat split; try assumption.
      * assert (Hpos : 0 < String.length f) by (rewrite Hlf; lia).
        rewrite (frac_text_nonempty f Hpos). cbn [exp_text]. now rewrite append_nil_r.
      * right. exists c, (JSString.slice_to (Z.to_nat n - 1) r). split; [ | exact Hc0 ].
        unfold i. destruct (Z.to_nat n) as [ | n' ] eqn:En; [ lia | ].
        simpl. now rewrite Nat.sub_0_r.
      * pose proof (digits_value_shift f (digits_value i 0)) as Hs.
        rewrite <- digits_value_append, Hif, Hval in Hs. rewrite <- Hs.
        replace (0 - Z.of_nat (String.length f))%Z with e by lia.
        apply normalize_fraction; [ lia | exact Hm ].
    + destruct ((-6 <? n)%Z && (n <=? 0)%Z)%bool eqn:Hn2.
      * apply andb_prop in Hn2 as [_ Hn0]. apply Z.leb_le in Hn0.
        destruct (digits_value_zeros (Z.to_nat (- n)) 0) as (Hz & Hzv & Hzl).
        set (z := JSString.replicate (Z.to_nat (- n)) "0"%char) in *.
        exists "0", (z ++ String c r), None.
        assert (Hlen : String.length (z ++ String c r) = Z.to_nat (- n) + S (String.length r))
          by (now rewrite length_append, Hzl).
        repeat split.
        -- rewrite frac_text_nonempty by lia. cbn [exp_text]. now rewrite append_nil_r.
        -- now left.
        -- rewrite all_digits_append, Hz. simpl. now rewrite Hdc, Hr.
        -- assert (Hv0 : digits_value (z ++ String c r) 0 = a).
           { rewrite digits_value_append, Hzv, Z.mul_0_l. exact Hval. }
           rewrite Hv0, Hlen. change (digits_value "0" 0) with 0%Z.
           rewrite Z.mul_0_l, Z.add_0_l.
           replace (0 - Z.of_nat (Z.to_nat (- n) + S (String.length r)))%Z with e by lia.
           apply normalize_fraction; [ lia | exact Hm ].
      * rewrite exponential_parts.
        exists (String c EmptyString), r, (Some (n - 1)%Z).
        repeat split; try assumption.
        rewrite <- Hsplit, Hval.
        replace (n - 1 - Z.of_nat (String.length r))%Z with e by lia.
        apply normalize_fraction; [ lia | exact Hm ].
Qed.

Lemma digit_not_minus (c : ascii) :
  JSString.is_digit c = true -> Ascii.eqb c "-" = false.
Proof.
  intros H. destruct (Ascii.eqb_spec c "-") as [-> | _]; [ discriminate | reflexivity ].
Qed.

Lemma int_text_head (i : string) :
  all_digits i = true -> int_text_ok i ->
  exists c r, i = String c r /\ JSString.is_digit c = true.
Proof.
  intros Hi [-> | (c & r & -> & _)].
  - now exists "0"%char, EmptyString.
  - exists c, r. simpl in Hi. apply andb_prop in Hi. tauto.
Qed.

(** A number in the form [JNum] keeps is read back from its text. *)
Lemma number_roundtrip (m e : Z) (rest : string) :
  canonical_number m e = true -> delimited rest = true ->
  JSON.parse_number (JSON.number_to_string m e ++ rest) = Some (JSON.JNum m e, rest).
Proof.
  intros Hcan Hrest. rewrite number_to_string_body.
  destruct (Z.eqb_spec m 0) as [-> | Hm].
  - assert (e = 0%Z) as ->.
    { unfold canonical_number in Hcan. apply andb_prop in Hcan as [_ H].
      destruct (Z.eqb_spec e 0); [ assumption | discriminate ]. }
    exact (parse_unsigned_parts false "0" EmptyString None rest eq_refl
             (or_introl eq_refl) eq_refl Hrest).
  - assert (Hcan' : canonical_number (Z.abs m) e = true).
    { unfold canonical_number in *. apply andb_prop in Hcan as [He H]. rewrite He. simpl.
      destruct (Z.eqb_spec e 0); [ reflexivity | ]. simpl in *.
      destruct (Z.eqb_spec (m mod 10) 0); [ discriminate | ].
      destruct (Z.eqb_spec (Z.abs m mod 10) 0) as [E | ]; [ | reflexivity ].
      exfalso. apply n0. destruct (Z.abs_spec m) as [[_ Habs] | [_ Habs]]; rewrite Habs in E.
      - exact E.
      - apply Z.mod_divide in E; [ | lia ]. apply Z.mod_divide; [ lia | ].
        now apply Z.divide_opp_r. }
    destruct (number_body_parts (Z.abs m) e) as (i & f & x & Hbody & Hi & Hok & Hf & Hnorm);
      [ lia | exact Hcan' | ].
    rewrite Hbody.
    pose proof (parse_unsigned_parts true i f x rest Hi Hok Hf Hrest) as Hneg.
    pose proof (parse_unsigned_parts false i f x rest Hi Hok Hf Hrest) as Hpos.
    rewrite (make_number_normal true _ _ _ _ _ _ Hnorm) in Hneg.
    rewrite (make_number_normal false _ _ _ _ _ _ Hnorm) in Hpos.
    destruct (Z.ltb_spec m 0) as [Hlt | Hge].
    + rewrite !append_assoc.
      change (JSON.parse_number ("-" ++ i ++ frac_text f ++ exp_text x ++ rest))
        with (JSON.parse_unsigned true (i ++ frac_text f ++ exp_text x ++ rest)).
      rewrite Hneg. do 3 f_equal. lia.
    + rewrite !append_assoc. cbn [append].
      destruct (int_text_head i Hi Hok) as (c & r & -> & Hc).
      cbn [append JSON.parse_number]. rewrite (digit_not_minus c Hc).
      change (String c (r ++ frac_text f ++ exp_text x ++ rest))
        with (String c r ++ frac_text f ++ exp_text x ++ rest).
      rewrite Hpos. do 3 f_equal. lia.
Qed.

(** ** String literals *)

Lemma escape_char_read (c : ascii) (tail : string) :
  JSON.parse_string_body (JSON.escape_char c ++ tail) =
  match JSON.parse_string_body tail with
  | Some (str, rest) => Some (String c str, rest)
  | None => None
  end.
Proof.
  destruct c as [[] [] [] [] [] [] [] []]; reflexivity.
Qed.

(** The characters [quote] writes between the quotes are read back as the
    string. *)
Lemma string_roundtrip (s rest : string) :
  JSON.parse_string_body (JSON.escape s ++ String dquote rest) = Some (s, rest).
Proof.
  induction s as [ | c s IH ]; [ reflexivity | ].
  cbn [JSON.escape]. now rewrite append_assoc, escape_char_read, IH.
Qed.

Lemma quote_roundtrip (s rest : string) :
  exists body,
    JSON.quote s ++ rest = String dquote body /\
    JSON.parse_string_body body = Some (s, rest).
Proof.
  exists (JSON.escape s ++ String dquote rest). split.
  - unfold JSON.quote. cbn [append]. now rewrite append_assoc.
  - apply string_roundtrip.
Qed.

(** ** Values *)

(** *** White space and first characters *)

Lemma skip_ws_all (w s : string) :
  all_ws w = true -> JSON.skip_ws (w ++ s) = JSON.skip_ws s.
Proof.
  induction w as [ | c w IH ]; simpl; intros H; [ reflexivity | ].
  apply andb_prop in H as [Hc Hw]. rewrite Hc. now apply IH.
Qed.

Lemma value_head_cases (s : string) :
  value_head s = true ->
  exists c r, s = String c r /\ JSON.is_ws c = false /\
              Ascii.eqb c "]" = false /\ Ascii.eqb c "}" = false.
Proof.
  destruct s as [ | c r ]; simpl; [ discriminate | ]. intros H.
  exists c, r. split; [ reflexivity | ].
  repeat (apply orb_prop in H as [H | H]);
    try (apply Ascii.eqb_eq in H; subst c; now repeat split).
  unfold JSString.is_digit in H. apply andb_prop in H as [H1 H2].
  apply Nat.leb_le in H1, H2. unfold JSON.is_ws. cbv zeta.
  repeat split.
  - repeat (apply orb_false_intro); apply Nat.eqb_neq; lia.
  - destruct (Ascii.eqb_spec c "]") as [-> | _]; [ vm_compute in H2; lia | reflexivity ].
  - destruct (Ascii.eqb_spec c "}") as [-> | _]; [ vm_compute in H2; lia | reflexivity ].
Qed.

Lemma skip_ws_head (s : string) : value_head s = true -> JSON.skip_ws s = s.
Proof.
  intros H. destruct (value_head_cases s H) as (c & r & -> & Hws & _).
  simpl. now rewrite Hws.
Qed.

Lemma all_ws_spaces (n : nat) : all_ws (JSON.spaces n) = true.
Proof. induction n; simpl; [ reflexivity | exact IHn ]. Qed.

Lemma value_head_append (a b : string) :
  value_head a = true -> value_head (a ++ b) = true.
Proof. destruct a; [ discriminate | trivial ]. Qed.

Lemma number_head (m e : Z) :
  canonical_number m e = true -> value_head (JSON.number_to_string m e) = true.
Proof.
  intros Hcan. rewrite number_to_string_body.
  destruct (Z.eqb_spec m 0) as [-> | Hm]; [ reflexivity | ].
  destruct (Z.ltb_spec m 0) as [Hlt | Hge]; [ reflexivity | ].
  destruct (number_body_parts m e) as (i & f & x & Hbody & Hi & Hok & _); [ lia | exact Hcan | ].
  replace (Z.abs m) with m by lia. rewrite Hbody.
  destruct (int_text_head i Hi Hok) as (c & r & -> & Hc).
  simpl. now rewrite Hc.
Qed.

Lemma serialize_head (v : JSON.Value) (gap indent : nat) :
  canonical v -> value_head (JSON.serialize gap indent v) = true.
Proof.
  destruct v as [ | [ | ] | m e | s | [ | x items ] | [ | kv props ] ]; simpl; intros H;
    try reflexivity.
  - now apply number_head.
  - unfold JSON.wrap. now destruct (Nat.eqb gap 0).
  - unfold JSON.wrap. now destruct (Nat.eqb gap 0).
Qed.

(** The layout of a non-empty array or object: white space after the
    opening character, between the elements after each comma, and before the
    closing character. *)
Lemma wrap_layout (o c : ascii) (gap indent : nat) (parts : list string) :
  exists pre post,
    all_ws pre = true /\ all_ws post = true /\
    (is_delimiter c = true -> forall s, delimited (post ++ String c s) = true) /\
    JSON.wrap (String o EmptyString) (String c EmptyString) gap indent parts =
    String o (pre ++ JSString.join (String "," pre) parts ++ post ++ String c EmptyString).
Proof.
  unfold JSON.wrap. destruct (Nat.eqb gap 0).
  - exists EmptyString, EmptyString. repeat split. intros H s. exact H.
  - exists (String JSON.newline (JSON.spaces (indent + gap))),
           (String JSON.newline (JSON.spaces indent)).
    split; [ apply (all_ws_spaces (indent + gap)) | ].
    split; [ apply (all_ws_spaces indent) | ].
    split.
    + intros _ s. reflexivity.
    + reflexivity.
Qed.

Lemma parse_elements_step (fuel : nat) (s : string) (v : JSON.Value) (r : string) :
  JSON.parse_value fuel s = Some (v, r) ->
  JSON.parse_elements (S fuel) s =
  match JSON.skip_ws r with
  | EmptyString => None
  | String c r' =>
      if Ascii.eqb c "," then
        match JSON.parse_elements fuel (JSON.skip_ws r') with
        | Some (items, rest) => Some (v :: items, rest)
        | None => None
        end
      else if Ascii.eqb c "]" then Some ([v], r')
      else None
  end.
Proof. intros H. cbn [JSON.parse_elements]. now rewrite H. Qed.

Lemma elements_roundtrip (gap indent : nat) (pre post : string) :
  all_ws pre = true -> all_ws post = true ->
  (forall s, delimited (post ++ String "]" s) = true) ->
  forall items,
    Forall reads_back items ->
    fold_right (fun x rest => canonical x /\ rest) True items ->
    items <> [] ->
    forall fuel rest,
      fold_right (fun x n => S (need x + n)) 0 items <= fuel ->
      JSON.parse_elements fuel
        (JSString.join (String "," pre) (map (JSON.serialize gap indent) items)
           ++ post ++ String "]" rest) = Some (items, rest).
Proof.
  intros Hpre Hpost Hdel items Hall.
  induction Hall as [ | x items Hx Hitems IH ]; intros Hcan Hne fuel rest Hfuel;
    [ now elim Hne | ].
  destruct Hcan as [Hcx Hcan]. cbn [fold_right] in Hfuel.
  destruct fuel as [ | fuel ]; [ lia | ].
  destruct items as [ | y items ].
  - cbn [map JSString.join].
    rewrite (parse_elements_step fuel _ x (post ++ String "]" rest)).
    + rewrite skip_ws_all by exact Hpost. reflexivity.
    + apply Hx; [ exact Hcx | cbn [fold_right] in Hfuel; lia | apply Hdel ].
  - change (JSString.join (String "," pre) (map (JSON.serialize gap indent) (x :: y :: items)))
      with (JSON.serialize gap indent x ++ String "," pre ++
            JSString.join (String "," pre) (map (JSON.serialize gap indent) (y :: items))).
    rewrite !append_assoc.
    set (tail := JSString.join (String "," pre) (map (JSON.serialize gap indent) (y :: items))
                   ++ post ++ String "]" rest).
    change (String "," pre ++ tail) with (String "," (pre ++ tail)).
    rewrite (parse_elements_step fuel _ x (String "," (pre ++ tail))).
    + change (JSON.skip_ws (String "," (pre ++ tail))) with (String "," (pre ++ tail)).
      cbv iota. change (Ascii.eqb "," ",") with true. cbv iota.
      rewrite skip_ws_all by exact Hpre.
      assert (Hhead : value_head tail = true).
      { unfold tail. cbn [map JSString.join].
        destruct (map (JSON.serialize gap indent) items);
          [ | rewrite append_assoc ]; apply value_head_append, serialize_head, Hcan. }
      rewrite (skip_ws_head tail Hhead). unfold tail.
      rewrite IH; [ reflexivity | exact Hcan | discriminate | lia ].
    + apply Hx; [ exact Hcx | lia | reflexivity ].
Qed.

Lemma parse_members_step (fuel : nat) (body : string) (name : string)
      (r2 : string) (v : JSON.Value) (r3 : string) :
  JSON.parse_string_body body = Some (name, String ":" r2) ->
  JSON.parse_value fuel (JSON.skip_ws r2) = Some (v, r3) ->
  JSON.parse_members (S fuel) (String dquote body) =
  match JSON.skip_ws r3 with
  | EmptyString => None
  | String c r' =>
      if Ascii.eqb c "," then
        match JSON.parse_members fuel (JSON.skip_ws r') with
        | Some (members, rest) => Some ((name, v) :: members, rest)
        | None => None
        end
      else if Ascii.eqb c "}" then Some ([(name, v)], r')
      else None
  end.
Proof.
  intros Hname Hv. cbn [JSON.parse_members].
  change (Ascii.eqb dquote dquote) with true. cbv iota.
  rewrite Hname.
  change (JSON.skip_ws (String ":" r2)) with (String ":" r2). cbv iota.
  change (Ascii.eqb ":" ":") with true. cbv iota.
  now rewrite Hv.
Qed.

Lemma member_roundtrip (gap indent fuel : nat) (kv : string * JSON.Value) (tail : string) :
  reads_back (snd kv) -> canonical (snd kv) -> need (snd kv) <= fuel ->
  delimited tail = true ->
  exists body r2,
    member_text gap indent kv ++ tail = String dquote body /\
    JSON.parse_string_body body = Some (fst kv, String ":" r2) /\
    JSON.parse_value fuel (JSON.skip_ws r2) = Some (snd kv, tail).
Proof.
  intros Hrb Hcan Hfuel Htail. unfold member_text.
  set (sp := if Nat.eqb gap 0 then EmptyString else " ").
  destruct (quote_roundtrip (fst kv)
              (String ":" (sp ++ JSON.serialize gap indent (snd kv) ++ tail)))
    as (body & Hbody & Hparse).
  exists body, (sp ++ JSON.serialize gap indent (snd kv) ++ tail).
  split; [ | split ].
  - rewrite <- Hbody. rewrite !append_assoc. reflexivity.
  - exact Hparse.
  - rewrite skip_ws_all by (unfold sp; now destruct (Nat.eqb gap 0)).
    rewrite skip_ws_head by (apply value_head_append, serialize_head, Hcan).
    now apply Hrb.
Qed.

Lemma members_roundtrip (gap indent : nat) (pre post : string) :
  all_ws pre = true -> all_ws post = true ->
  (forall s, delimited (post ++ String "}" s) = true) ->
  forall props,
    Forall (fun kv => reads_back (snd kv)) props ->
    fold_right (fun kv rest => canonical (snd kv) /\ rest) True props ->
    props <> [] ->
    forall fuel rest,
      fold_right (fun kv n => S (need (snd kv) + n)) 0 props <= fuel ->
      JSON.parse_members fuel
        (JSString.join (String "," pre) (map (member_text gap indent) props)
           ++ post ++ String "}" rest) = Some (props, rest).
Proof.
  intros Hpre Hpost Hdel props Hall.
  induction Hall as [ | kv props Hkv Hprops IH ]; intros Hcan Hne fuel rest Hfuel;
    [ now elim Hne | ].
  destruct Hcan as [Hckv Hcan]. cbn [fold_right] in Hfuel.
  destruct fuel as [ | fuel ]; [ lia | ].
  destruct props as [ | kv' props ].
  - cbn [map JSString.join].
    destruct (member_roundtrip gap indent fuel kv (post ++ String "}" rest))
      as (body & r2 & -> & Hname & Hv);
      [ exact Hkv | exact Hckv | cbn [fold_right] in Hfuel; lia | apply Hdel | ].
    rewrite (parse_members_step fuel body _ r2 _ _ Hname Hv).
    rewrite skip_ws_all by exact Hpost. destruct kv; reflexivity.
  - change (JSString.join (String "," pre) (map (member_text gap indent) (kv :: kv' :: props)))
      with (member_text gap indent kv ++ String "," pre ++
            JSString.join (String "," pre) (map (member_text gap indent) (kv' :: props))).
    rewrite !append_assoc.
    set (tail := JSString.join (String "," pre) (map (member_text gap indent) (kv' :: props))
                   ++ post ++ String "}" rest).
    change (String "," pre ++ tail) with (String "," (pre ++ tail)).
    destruct (member_roundtrip gap indent fuel kv (String "," (pre ++ tail)))
      as (body & r2 & -> & Hname & Hv);
      [ exact Hkv | exact Hckv | lia | reflexivity | ].
    rewrite (parse_members_step fuel body _ r2 _ _ Hname Hv).
    change (JSON.skip_ws (String "," (pre ++ tail))) with (String "," (pre ++ tail)).
    cbv iota. change (Ascii.eqb "," ",") with true. cbv iota.
    rewrite skip_ws_all by exact Hpre.
    assert (Hhead : value_head tail = true).
    { unfold tail. cbn [map JSString.join].
      destruct (map (member_text gap indent) props);
        [ | rewrite append_assoc ]; reflexivity. }
    rewrite (skip_ws_head tail Hhead). unfold tail.
    rewrite IH; [ destruct kv; reflexivity | exact Hcan | discriminate | lia ].
Qed.

Lemma number_first (m e : Z) :
  canonical_number m e = true ->
  exists c r, JSON.number_to_string m e = String c r /\
              (JSString.is_digit c = true \/ c = "-"%char).
Proof.
  intros Hcan. rewrite number_to_string_body.
  destruct (Z.eqb_spec m 0) as [-> | Hm]; [ exists "0"%char, EmptyString; auto | ].
  destruct (Z.ltb_spec m 0) as [Hlt | Hge]; [ eexists _, _; split; [ reflexivity | now right ] | ].
  destruct (number_body_parts m e) as (i & f & x & Hbody & Hi & Hok & _); [ lia | exact Hcan | ].
  replace (Z.abs m) with m by lia. rewrite Hbody.
  destruct (int_text_head i Hi Hok) as (c & r & -> & Hc).
  eexists _, _. split; [ reflexivity | now left ].
Qed.

Lemma parse_value_number (fuel : nat) (c : ascii) (r : string) :
  JSString.is_digit c = true \/ c = "-"%char ->
  JSON.parse_value (S fuel) (String c r) = JSON.parse_number (String c r).
Proof.
  intros [H | ->]; [ | reflexivity ].
  cbn [JSON.parse_value].
  repeat match goal with
         | |- context [Ascii.eqb c ?x] =>
             destruct (Ascii.eqb_spec c x) as [-> | _]; [ discriminate H | ]
         end.
  reflexivity.
Qed.

Lemma parse_literal_word (word : string) (v : JSON.Value) (rest : string) :
  JSON.parse_literal word v (word ++ rest) = Some (v, rest).
Proof.
  unfold JSON.parse_literal.
  assert (H : String.prefix word (word ++ rest) = true).
  { induction word as [ | a word IH ]; simpl; [ now destruct rest | ].
    destruct (ascii_dec a a); [ exact IH | contradiction ]. }
  now rewrite H, slice_from_append.
Qed.

(** Reading back what [serialize] writes gives the value again, whatever the
    indentation, and leaves what follows the text. *)
Theorem value_roundtrip (v : JSON.Value) : reads_back v.
Proof.
  induction v as [ | b | m e | s | items IH | props IH ] using value_ind;
    intros Hcan gap indent fuel rest Hfuel Hrest;
    (destruct fuel as [ | fuel ]; [ simpl in Hfuel; lia | ]).
  - exact (parse_literal_word "null" JSON.JNull rest).
  - destruct b.
    + exact (parse_literal_word "true" (JSON.JBool true) rest).
    + exact (parse_literal_word "false" (JSON.JBool false) rest).
  - cbn [JSON.serialize].
    destruct (number_first m e Hcan) as (c & r & E & Hc).
    pose proof (number_roundtrip m e rest Hcan Hrest) as Hnum.
    rewrite E in *. cbn [append] in *. now rewrite parse_value_number.
  - cbn [JSON.serialize].
    destruct (quote_roundtrip s rest) as (body & -> & Hbody).
    cbn [JSON.parse_value]. change (Ascii.eqb dquote "{") with false.
    change (Ascii.eqb dquote "[") with false. change (Ascii.eqb dquote dquote) with true.
    cbv iota. now rewrite Hbody.
  - destruct items as [ | x items ]; [ reflexivity | ].
    change (JSON.serialize gap indent (JSON.JArr (x :: items)))
      with (JSON.wrap "[" "]" gap indent
              (map (JSON.serialize gap (indent + gap)) (x :: items))).
    destruct (wrap_layout "[" "]" gap indent
                (map (JSON.serialize gap (indent + gap)) (x :: items)))
      as (pre & post & Hpre & Hpost & Hdel & ->).
    cbn [append]. rewrite !append_assoc.
    change (String "]" EmptyString ++ rest) with (String "]" rest).
    set (text := JSString.join (String "," pre)
                   (map (JSON.serialize gap (indent + gap)) (x :: items))
                 ++ post ++ String "]" rest).
    assert (Hhead : value_head text = true).
    { unfold text. cbn [map JSString.join].
      destruct (map (JSON.serialize gap (indent + gap)) items);
        [ | rewrite append_assoc ]; apply value_head_append, serialize_head, Hcan. }
    cbn [JSON.parse_value]. change (Ascii.eqb "[" "{") with false.
    change (Ascii.eqb "[" "[") with true. cbv iota.
    rewrite skip_ws_all, (skip_ws_head text Hhead) by exact Hpre.
    destruct (value_head_cases text Hhead) as (c' & r' & E & _ & Hclose & _).
    rewrite E, Hclose, <- E. unfold text.
    rewrite (elements_roundtrip gap (indent + gap) pre post Hpre Hpost (Hdel eq_refl)
               (x :: items) IH Hcan);
      [ reflexivity | discriminate | simpl in Hfuel |- *; lia ].
  - destruct props as [ | kv props ]; [ reflexivity | ].
    change (JSON.serialize gap indent (JSON.JObj (kv :: props)))
      with (JSON.wrap "{" "}" gap indent
              (map (member_text gap (indent + gap)) (kv :: props))).
    destruct (wrap_layout "{" "}" gap indent
                (map (member_text gap (indent + gap)) (kv :: props)))
      as (pre & post & Hpre & Hpost & Hdel & ->).
    cbn [append]. rewrite !append_assoc.
    change (String "}" EmptyString ++ rest) with (String "}" rest).
    set (text := JSString.join (String "," pre)
                   (map (member_text gap (indent + gap)) (kv :: props))
                 ++ post ++ String "}" rest).
    assert (Hhead : value_head text = true).
    { unfold text. cbn [map JSString.join].
      destruct (map (member_text gap (indent + gap)) props);
        [ | rewrite append_assoc ]; reflexivity. }
    cbn [JSON.parse_value]. change (Ascii.eqb "{" "{") with true. cbv iota.
    rewrite skip_ws_all, (skip_ws_head text Hhead) by exact Hpre.
    destruct (value_head_cases text Hhead) as (c' & r' & E & _ & _ & Hclose).
    rewrite E, Hclose, <- E. unfold text.
    destruct Hcan as [Hbuild Hcan].
    rewrite (members_roundtrip gap (indent + gap) pre post Hpre Hpost (Hdel eq_refl)
               (kv :: props) IH Hcan);
      [ now rewrite Hbuild | discriminate | simpl in Hfuel |- *; lia ].
Qed.

(** *** The fuel of [JSON.parse] *)

Lemma join_length (c : ascii) (sep : string) (parts : list string) :
  fold_right (fun t n => S (String.length t + n)) 0 parts <=
  String.length (JSString.join (String c sep) parts) + 1.
Proof.
  induction parts as [ | t parts IH ]; [ simpl; lia | ].
  destruct parts as [ | t' parts ]; [ simpl; lia | ].
  change (JSString.join (String c sep) (t :: t' :: parts))
    with (t ++ String c sep ++ JSString.join (String c sep) (t' :: parts)).
  rewrite !length_append.
  change (String.length (String c sep)) with (S (String.length sep)).
  change (fold_right (fun t n => S (String.length t + n)) 0 (t :: t' :: parts))
    with (S (String.length t +
             fold_right (fun t n => S (String.length t + n)) 0 (t' :: parts))).
  lia.
Qed.

Lemma wrap_length (o c : ascii) (gap indent : nat) (parts : list string) :
  fold_right (fun t n => S (String.length t + n)) 0 parts + 1 <=
  String.length (JSON.wrap (String o EmptyString) (String c EmptyString) gap indent parts).
Proof.
  destruct (wrap_layout o c gap indent parts) as (pre & post & _ & _ & _ & ->).
  pose proof (join_length "," pre parts).
  change (String.length (String o ?x)) with (S (String.length x)).
  rewrite !length_append.
  change (String.length (String c EmptyString)) with 1. lia.
Qed.

Lemma need_bound (v : JSON.Value) :
  forall gap indent, need v <= 2 * String.length (JSON.serialize gap indent v) + 1.
Proof.
  induction v as [ | b | m e | s | items IH | props IH ] using value_ind;
    intros gap indent; try (simpl need; lia).
  - destruct items as [ | x items ]; [ simpl; lia | ].
    change (JSON.serialize gap indent (JSON.JArr (x :: items)))
      with (JSON.wrap "[" "]" gap indent
              (map (JSON.serialize gap (indent + gap)) (x :: items))).
    pose proof (wrap_length "[" "]" gap indent
                  (map (JSON.serialize gap (indent + gap)) (x :: items))) as Hlen.
    assert (Hsum :
      fold_right (fun x n => S (need x + n)) 0 (x :: items) <=
      2 * fold_right (fun t n => S (String.length t + n)) 0
            (map (JSON.serialize gap (indent + gap)) (x :: items))).
    { clear Hlen. induction IH as [ | y l Hy _ IHl ]; [ simpl; lia | ].
      cbn [map fold_right]. specialize (Hy gap (indent + gap)). lia. }
    cbn [need]. lia.
  - destruct props as [ | kv props ]; [ simpl; lia | ].
    change (JSON.serialize gap indent (JSON.JObj (kv :: props)))
      with (JSON.wrap "{" "}" gap indent
              (map (member_text gap (indent + gap)) (kv :: props))).
    pose proof (wrap_length "{" "}" gap indent
                  (map (member_text gap (indent + gap)) (kv :: props))) as Hlen.
    assert (Hsum :
      fold_right (fun kv n => S (need (snd kv) + n)) 0 (kv :: props) <=
      2 * fold_right (fun t n => S (String.length t + n)) 0
            (map (member_text gap (indent + gap)) (kv :: props))).
    { clear Hlen. induction IH as [ | y l Hy _ IHl ]; [ simpl; lia | ].
      cbn [map fold_right]. specialize (Hy gap (indent + gap)).
      unfold member_text at 1. rewrite !length_append. lia. }
    cbn [need]. lia.
Qed.

(** [JSON.parse(JSON.stringify(v, null, space))] is [v], for every value in
    the form the platform keeps and every indentation. *)
Theorem parse_stringify (v : JSON.Value) (space : nat) :
  canonical v -> JSON.parse (JSON.stringify v space) = Some v.
Proof.
  intros Hcan. unfold JSON.parse, JSON.stringify.
  rewrite skip_ws_head by now apply serialize_head.
  rewrite <- (append_nil_r (JSON.serialize space 0 v)) at 2.
  rewrite (value_roundtrip v Hcan space 0 _ EmptyString); [ reflexivity | | reflexivity ].
  unfold JSON.fuel_for. pose proof (need_bound v space 0). lia.
Qed.

(** ** The order of own properties *)

Lemma smaller_index_spec (i : Z) (props : list (string * JSON.Value)) :
  forallb (smaller_index i) props = true <->
  Forall (fun kv => exists j, JSON.array_index (fst kv) = Some j /\ (j < i)%Z) props.
Proof.
  rewrite forallb_forall, Forall_forall. unfold smaller_index.
  split; intros H kv Hin; specialize (H kv Hin).
  - destruct (JSON.array_index (fst kv)) as [j | ]; [ | discriminate ].
    exists j. split; [ reflexivity | now apply Z.ltb_lt ].
  - destruct H as (j & -> & Hj). now apply Z.ltb_lt.
Qed.

Lemma array_index_inj (k k' : string) (i : Z) :
  JSON.array_index k = Some i -> JSON.array_index k' = Some i -> k = k'.
Proof.
  unfold JSON.array_index. intros H H'.
  destruct (JSString.read_digits k 0 0) as [[n c] r].
  destruct (JSString.read_digits k' 0 0) as [[n' c'] r'].
  destruct (String.eqb_spec (JSString.digits n) k) as [E | ]; [ | discriminate ].
  destruct (String.eqb_spec (JSString.digits n') k') as [E' | ]; [ | discriminate ].
  simpl in H, H'.
  destruct (n <=? 4294967294)%Z; [ | discriminate ].
  destruct (n' <=? 4294967294)%Z; [ | discriminate ].
  congruence.
Qed.

Lemma has_property_app (k : string) (p q : list (string * JSON.Value)) :
  JSON.has_property k (p ++ q)%list = (JSON.has_property k p || JSON.has_property k q)%bool.
Proof.
  induction p as [ | [k' w] p IH ]; simpl; [ reflexivity | ].
  now rewrite IH, orb_assoc.
Qed.

Lemma insert_index_app (i : Z) (k : string) (v : JSON.Value)
      (p q : list (string * JSON.Value)) :
  JSON.insert_index i k v (p ++ q)%list =
  if forallb (smaller_index i) p then (p ++ JSON.insert_index i k v q)%list
  else (JSON.insert_index i k v p ++ q)%list.
Proof.
  induction p as [ | [k' w] p IH ]; [ reflexivity | ].
  cbn [app JSON.insert_index forallb]. unfold smaller_index at 1. cbn [fst].
  destruct (JSON.array_index k') as [j | ]; [ | reflexivity ].
  destruct (j <? i)%Z; [ | reflexivity ].
  cbn [andb]. rewrite IH. now destruct (forallb (smaller_index i) p).
Qed.

Lemma insert_index_end (i : Z) (k : string) (v : JSON.Value)
      (p : list (string * JSON.Value)) :
  forallb (smaller_index i) p = true ->
  JSON.insert_index i k v p = (p ++ [(k, v)])%list.
Proof.
  intros H. rewrite <- (app_nil_r p) at 1. now rewrite insert_index_app, H.
Qed.

Lemma smaller_index_absent (i : Z) (k : string) (p : list (string * JSON.Value)) :
  forallb (smaller_index i) p = true -> JSON.array_index k = Some i ->
  JSON.has_property k p = false.
Proof.
  intros H Hk. induction p as [ | [k' w] p IH ]; [ reflexivity | ].
  cbn [forallb] in H. apply andb_prop in H as [Hk' Hp].
  cbn [JSON.has_property]. rewrite (IH Hp), orb_false_r.
  destruct (String.eqb_spec k' k) as [-> | ]; [ | reflexivity ].
  unfold smaller_index in Hk'. cbn [fst] in Hk'. rewrite Hk in Hk'.
  apply Z.ltb_lt in Hk'. lia.
Qed.

Lemma build_object_snoc (p : list (string * JSON.Value)) (k : string) (v : JSON.Value) :
  JSON.build_object (p ++ [(k, v)])%list = JSON.define_own k v (JSON.build_object p).
Proof. unfold JSON.build_object. now rewrite fold_left_app. Qed.

(** Replaying an ordered list builds the same list. *)
Lemma build_object_ordered (props : list (string * JSON.Value)) :
  Ordered props -> JSON.build_object props = props.
Proof.
  induction 1 as [ | props k v i Hord IH Hk Hsmall | props k v Hord IH Hk Hnew ].
  - reflexivity.
  - apply smaller_index_spec in Hsmall.
    rewrite build_object_snoc, IH. unfold JSON.define_own.
    rewrite (smaller_index_absent i k props Hsmall Hk), Hk.
    now apply insert_index_end.
  - rewrite build_object_snoc, IH. unfold JSON.define_own. now rewrite Hnew, Hk.
Qed.

Lemma replace_property_app (k : string) (v : JSON.Value)
      (p q : list (string * JSON.Value)) :
  JSON.replace_property k v (p ++ q)%list =
  if JSON.has_property k p then (JSON.replace_property k v p ++ q)%list
  else (p ++ JSON.replace_property k v q)%list.
Proof.
  induction p as [ | [k' w] p IH ]; [ reflexivity | ].
  cbn [app JSON.replace_property JSON.has_property].
  destruct (String.eqb k' k); [ reflexivity | ].
  cbn [orb]. rewrite IH. now destruct (JSON.has_property k p).
Qed.

Lemma replace_property_keys (k : string) (v : JSON.Value)
      (p : list (string * JSON.Value)) :
  map fst (JSON.replace_property k v p) = map fst p.
Proof.
  induction p as [ | [k' w] p IH ]; [ reflexivity | ].
  cbn [JSON.replace_property]. destruct (String.eqb k' k); simpl; congruence.
Qed.

Lemma has_property_keys (k : string) (p : list (string * JSON.Value)) :
  JSON.has_property k p = existsb (fun k' => String.eqb k' k) (map fst p).
Proof. induction p as [ | [k' w] p IH ]; simpl; congruence. Qed.

Lemma smaller_index_keys (i : Z) (p : list (string * JSON.Value)) :
  forallb (smaller_index i) p =
  forallb (fun k => match JSON.array_index k with
                    | Some j => (j <? i)%Z
                    | None => false
                    end) (map fst p).
Proof.
  induction p as [ | [k' w] p IH ]; [ reflexivity | ].
  cbn [forallb map fst]. now rewrite IH.
Qed.

Lemma ordered_snoc_index (props : list (string * JSON.Value)) (k : string)
      (v : JSON.Value) (i : Z) :
  Ordered props -> JSON.array_index k = Some i ->
  forallb (smaller_index i) props = true ->
  Ordered (props ++ [(k, v)])%list.
Proof. intros H Hk Hs. apply (ordered_index props k v i H Hk). now apply smaller_index_spec. Qed.

Lemma ordered_replace (k : string) (v : JSON.Value) (props : list (string * JSON.Value)) :
  Ordered props -> Ordered (JSON.replace_property k v props).
Proof.
  induction 1 as [ | props k' v' i Hord IH Hk Hsmall | props k' v' Hord IH Hk Hnew ].
  - constructor.
  - apply smaller_index_spec in Hsmall. rewrite replace_property_app.
    destruct (JSON.has_property k props).
    + apply (ordered_snoc_index _ k' v' i IH Hk).
      now rewrite smaller_index_keys, replace_property_keys, <- smaller_index_keys.
    + cbn [JSON.replace_property].
      destruct (String.eqb k' k); now apply (ordered_snoc_index _ k' _ i).
  - rewrite replace_property_app.
    destruct (JSON.has_property k props).
    + apply ordered_plain; [ exact IH | exact Hk | ].
      now rewrite has_property_keys, replace_property_keys, <- has_property_keys.
    + cbn [JSON.replace_property].
      destruct (String.eqb k' k); now apply ordered_plain.
Qed.

Lemma smaller_index_insert (j i : Z) (k : string) (v : JSON.Value)
      (p : list (string * JSON.Value)) :
  forallb (smaller_index j) p = true -> JSON.array_index k = Some i -> (i < j)%Z ->
  forallb (smaller_index j) (JSON.insert_index i k v p) = true.
Proof.
  intros Hp Hk Hij. induction p as [ | [k' w] p IH ].
  - simpl. unfold smaller_index. cbn [fst]. rewrite Hk. simpl. rewrite andb_true_r.
    now apply Z.ltb_lt.
  - cbn [forallb] in Hp. apply andb_prop in Hp as [Hk' Hp'].
    assert (Hnew : smaller_index j (k, v) = true).
    { unfold smaller_index. cbn [fst]. rewrite Hk. now apply Z.ltb_lt. }
    cbn [JSON.insert_index].
    destruct (JSON.array_index k') as [j' | ]; [ destruct (j' <? i)%Z | ];
      cbn [forallb]; rewrite ?Hk', ?Hp', ?Hnew, ?IH; auto.
Qed.

Lemma has_property_insert (k' : string) (i : Z) (k : string) (v : JSON.Value)
      (p : list (string * JSON.Value)) :
  JSON.has_property k' (JSON.insert_index i k v p) =
  (String.eqb k k' || JSON.has_property k' p)%bool.
Proof.
  induction p as [ | [k0 w] p IH ]; [ reflexivity | ].
  cbn [JSON.insert_index].
  destruct (JSON.array_index k0) as [j | ]; [ destruct (j <? i)%Z | ]; try reflexivity.
  cbn [JSON.has_property]. rewrite IH.
  destruct (String.eqb k0 k'), (String.eqb k k'); reflexivity.
Qed.

(** Some property is not a smaller index: then it is a larger one, when the
    list holds index names below [j] only. *)
Lemma not_all_smaller (i j : Z) (p : list (string * JSON.Value)) :
  forallb (smaller_index j) p = true -> forallb (smaller_index i) p = false ->
  (i < j)%Z.
Proof.
  induction p as [ | kv p IH ]; [ discriminate | ].
  cbn [forallb]. intros Hj Hi. apply andb_prop in Hj as [Hkv Hp].
  destruct (smaller_index i kv) eqn:E; [ now apply IH | ].
  unfold smaller_index in *. destruct (JSON.array_index (fst kv)) as [j' | ]; [ | discriminate ].
  apply Z.ltb_lt in Hkv. apply Z.ltb_ge in E. lia.
Qed.

Lemma ordered_insert (i : Z) (k : string) (v : JSON.Value)
      (props : list (string * JSON.Value)) :
  Ordered props -> JSON.array_index k = Some i ->
  JSON.has_property k props = false ->
  Ordered (JSON.insert_index i k v props).
Proof.
  intros Hord Hk.
  induction Hord as [ | props k' v' j Hord IH Hk' Hsmall | props k' v' Hord IH Hk' Hnew ];
    intros Habsent.
  - apply (ordered_snoc_index [] k v i); [ constructor | exact Hk | reflexivity ].
  - apply smaller_index_spec in Hsmall.
    rewrite has_property_app in Habsent. apply orb_false_elim in Habsent as [Hp Hlast].
    cbn [JSON.has_property] in Hlast. rewrite orb_false_r in Hlast.
    assert (Hne : i <> j).
    { intros ->. rewrite (array_index_inj k' k j Hk' Hk), String.eqb_refl in Hlast.
      discriminate. }
    rewrite insert_index_app.
    destruct (forallb (smaller_index i) props) eqn:Hall.
    + cbn [JSON.insert_index]. rewrite Hk'.
      destruct (Z.ltb_spec j i) as [Hji | Hij].
      * change (props ++ [(k', v'); (k, v)])%list
          with (props ++ ([(k', v')] ++ [(k, v)]))%list.
        rewrite app_assoc.
        apply (ordered_snoc_index _ k v i); [ | exact Hk | ].
        -- now apply (ordered_snoc_index _ k' v' j).
        -- rewrite forallb_app, Hall. simpl. unfold smaller_index. cbn [fst].
           rewrite Hk'. rewrite andb_true_r. now apply Z.ltb_lt.
      * change (props ++ [(k, v); (k', v')])%list
          with (props ++ ([(k, v)] ++ [(k', v')]))%list.
        rewrite app_assoc.
        apply (ordered_snoc_index _ k' v' j); [ | exact Hk' | ].
        -- now apply (ordered_snoc_index _ k v i).
        -- rewrite forallb_app, Hsmall. simpl. unfold smaller_index. cbn [fst].
           rewrite Hk. rewrite andb_true_r. apply Z.ltb_lt. lia.
    + apply (ordered_snoc_index _ k' v' j); [ now apply IH | exact Hk' | ].
      apply smaller_index_insert; [ exact Hsmall | exact Hk | ].
      now apply (not_all_smaller i j props).
  - rewrite has_property_app in Habsent. apply orb_false_elim in Habsent as [Hp Hlast].
    cbn [JSON.has_property] in Hlast. rewrite orb_false_r in Hlast.
    rewrite insert_index_app.
    destruct (forallb (smaller_index i) props) eqn:Hall.
    + cbn [JSON.insert_index]. rewrite Hk'.
      change (props ++ [(k, v); (k', v')])%list
        with (props ++ ([(k, v)] ++ [(k', v')]))%list.
      rewrite app_assoc.
      apply ordered_plain; [ now apply (ordered_snoc_index _ k v i) | exact Hk' | ].
      rewrite has_property_app, Hnew. cbn [JSON.has_property].
      rewrite String.eqb_sym, Hlast. reflexivity.
    + apply ordered_plain; [ now apply IH | exact Hk' | ].
      rewrite has_property_insert, Hnew, String.eqb_sym, Hlast. reflexivity.
Qed.

(** [CreateDataProperty] keeps a property list ordered. *)
Lemma ordered_define_own (k : string) (v : JSON.Value)
      (props : list (string * JSON.Value)) :
  Ordered props -> Ordered (JSON.define_own k v props).
Proof.
  intros H. unfold JSON.define_own.
  destruct (JSON.has_property k props) eqn:Hhas.
  - now apply ordered_replace.
  - destruct (JSON.array_index k) as [i | ] eqn:Hk.
    + now apply ordered_insert.
    + now apply ordered_plain.
Qed.

Lemma ordered_build_object (members : list (string * JSON.Value)) :
  Ordered (JSON.build_object members).
Proof.
  unfold JSON.build_object.
  assert (H : forall acc, Ordered acc ->
                Ordered (fold_left (fun props kv => JSON.define_own (fst kv) (snd kv) props)
                           members acc)).
  { induction members as [ | kv members IH ]; intros acc Hacc; [ exact Hacc | ].
    simpl. apply IH. now apply ordered_define_own. }
  apply H. constructor.
Qed.

(** Building an object from the properties of a built object changes
    nothing. *)
Lemma build_object_idempotent (members : list (string * JSON.Value)) :
  JSON.build_object (JSON.build_object members) = JSON.build_object members.
Proof. apply build_object_ordered, ordered_build_object. Qed.

(** ** What the parser returns *)

Lemma strip_decimal_canonical (fuel : nat) :
  forall m e, (e <= 0)%Z -> Z.to_nat (- e) <= fuel ->
    let '(m', e') := JSON.strip_decimal fuel m e in canonical_number m' e' = true.
Proof.
  unfold canonical_number.
  induction fuel as [ | fuel IH ]; intros m e He Hfuel; cbn [JSON.strip_decimal].
  - assert (e = 0%Z) as -> by lia. reflexivity.
  - destruct (Z.ltb_spec e 0) as [Hneg | Hpos]; cbn [andb].
    + destruct (Z.eqb_spec (m mod 10) 0) as [Hz | Hnz].
      * apply IH; lia.
      * destruct (Z.leb_spec e 0); [ | lia ].
        destruct (Z.eqb_spec (m mod 10) 0); [ contradiction | ].
        now destruct (e =? 0)%Z.
    + assert (e = 0%Z) as -> by lia. reflexivity.
Qed.

Lemma normalize_canonical (m e : Z) :
  let '(m', e') := JSON.normalize m e in canonical_number m' e' = true.
Proof.
  unfold JSON.normalize.
  destruct (m =? 0)%Z; [ reflexivity | ].
  destruct (Z.leb_spec 0 e); [ reflexivity | ].
  apply strip_decimal_canonical; lia.
Qed.

Lemma canonical_number_opp (m e : Z) :
  canonical_number m e = true -> canonical_number (- m) e = true.
Proof.
  unfold canonical_number. intros H. apply andb_prop in H as [He H]. rewrite He. simpl.
  destruct (e =? 0)%Z; [ reflexivity | ]. simpl in *.
  destruct (Z.eqb_spec (m mod 10) 0) as [ | Hm]; [ discriminate | ].
  destruct (Z.eqb_spec (- m mod 10) 0) as [E | ]; [ | reflexivity ].
  exfalso. apply Hm. apply Z.mod_divide in E; [ | lia ]. apply Z.mod_divide; [ lia | ].
  now apply Z.divide_opp_r.
Qed.

Lemma make_number_canonical (negative : bool) (ip fp : Z) (fl : nat) (x : Z) :
  canonical (JSON.make_number negative ip fp fl x).
Proof.
  unfold JSON.make_number.
  pose proof (normalize_canonical (ip * 10 ^ Z.of_nat fl + fp) (x - Z.of_nat fl)) as H.
  destruct (JSON.normalize _ _) as [m' e'].
  destruct negative; [ now apply canonical_number_opp | exact H ].
Qed.

Lemma parse_unsigned_canonical (negative : bool) (s : string) (v : JSON.Value) (r : string) :
  JSON.parse_unsigned negative s = Some (v, r) -> canonical v.
Proof.
  unfold JSON.parse_unsigned. destruct s as [ | c s ]; [ discriminate | ].
  destruct (JSString.is_digit c); [ | discriminate ].
  destruct (if Ascii.eqb c "0" then _ else _) as [[ip n] s2].
  destruct (JSON.read_fraction s2) as [[[fp fl] s3] | ]; [ | discriminate ].
  destruct (JSON.read_exponent s3) as [[x s4] | ]; [ | discriminate ].
  intros H. injection H as <- _. apply make_number_canonical.
Qed.

Lemma parse_number_canonical (s : string) (v : JSON.Value) (r : string) :
  JSON.parse_number s = Some (v, r) -> canonical v.
Proof.
  unfold JSON.parse_number. destruct s as [ | c s ]; [ discriminate | ].
  destruct (Ascii.eqb c "-"); apply parse_unsigned_canonical.
Qed.

Lemma parse_literal_canonical (word : string) (w : JSON.Value) (s : string)
      (v : JSON.Value) (r : string) :
  canonical w -> JSON.parse_literal word w s = Some (v, r) -> canonical v.
Proof.
  unfold JSON.parse_literal. intros Hw. destruct (String.prefix word s); [ | discriminate ].
  intros H. now injection H as <- _.
Qed.

Lemma values_canonical_app (p q : list (string * JSON.Value)) :
  values_canonical (p ++ q)%list <-> values_canonical p /\ values_canonical q.
Proof.
  induction p as [ | kv p IH ]; simpl; [ tauto | ]. unfold values_canonical in *.
  simpl. tauto.
Qed.

Lemma define_own_canonical (k : string) (v : JSON.Value)
      (props : list (string * JSON.Value)) :
  canonical v -> values_canonical props ->
  values_canonical (JSON.define_own k v props).
Proof.
  intros Hv Hp. unfold JSON.define_own.
  destruct (JSON.has_property k props).
  - induction props as [ | [k' w] props IH ]; [ exact I | ].
    destruct Hp as [Hw Hp]. cbn [JSON.replace_property].
    destruct (String.eqb k' k); split; auto.
  - destruct (JSON.array_index k) as [i | ].
    + induction props as [ | [k' w] props IH ]; [ now split | ].
      destruct Hp as [Hw Hp]. cbn [JSON.insert_index].
      destruct (JSON.array_index k') as [j | ]; [ destruct (j <? i)%Z | ];
        repeat split; auto.
    + apply values_canonical_app. split; [ exact Hp | now split ].
Qed.

Lemma build_object_canonical (members : list (string * JSON.Value)) :
  values_canonical members -> canonical (JSON.JObj (JSON.build_object members)).
Proof.
  intros H. split; [ apply build_object_idempotent | ].
  unfold JSON.build_object.
  assert (G : forall acc, values_canonical acc ->
                values_canonical
                  (fold_left (fun props kv => JSON.define_own (fst kv) (snd kv) props)
                     members acc)).
  { induction members as [ | kv members IH ]; intros acc Hacc; [ exact Hacc | ].
    destruct H as [Hkv H]. simpl. apply IH; [ exact H | ].
    now apply define_own_canonical. }
  apply G. exact I.
Qed.

(** Whatever [parse_value] returns is in the form the platform keeps. *)
Lemma parse_value_canonical (fuel : nat) :
  (forall s v r, JSON.parse_value fuel s = Some (v, r) -> canonical v) /\
  (forall s items r, JSON.parse_elements fuel s = Some (items, r) ->
                     canonical (JSON.JArr items)) /\
  (forall s members r, JSON.parse_members fuel s = Some (members, r) ->
                       values_canonical members).
Proof.
  induction fuel as [ | fuel (IHv & IHe & IHm) ]; [ repeat split; discriminate | ].
  split; [ | split ].
  - intros s v r. cbn [JSON.parse_value].
    destruct s as [ | c s ]; [ discriminate | ].
    destruct (Ascii.eqb c "{").
    { destruct (JSON.skip_ws s) as [ | c' s' ]; [ discriminate | ].
      destruct (Ascii.eqb c' "}").
      - intros H. injection H as <- _. now split.
      - destruct (JSON.parse_members fuel (String c' s')) as [[members rest] | ] eqn:E;
          [ | discriminate ].
        intros H. injection H as <- _. apply build_object_canonical. now apply (IHm _ _ _ E). }
    destruct (Ascii.eqb c "[").
    { destruct (JSON.skip_ws s) as [ | c' s' ]; [ discriminate | ].
      destruct (Ascii.eqb c' "]").
      - intros H. injection H as <- _. exact I.
      - destruct (JSON.parse_elements fuel (String c' s')) as [[items rest] | ] eqn:E;
          [ | discriminate ].
        intros H. injection H as <- _. now apply (IHe _ _ _ E). }
    destruct (Ascii.eqb c dquote).
    { destruct (JSON.parse_string_body s) as [[str rest] | ]; [ | discriminate ].
      intros H. injection H as <- _. exact I. }
    destruct (Ascii.eqb c "t"); [ now apply parse_literal_canonical | ].
    destruct (Ascii.eqb c "f"); [ now apply parse_literal_canonical | ].
    destruct (Ascii.eqb c "n"); [ now apply parse_literal_canonical | ].
    apply parse_number_canonical.
  - intros s items r. cbn [JSON.parse_elements].
    destruct (JSON.parse_value fuel s) as [[v r1] | ] eqn:Ev; [ | discriminate ].
    apply IHv in Ev.
    destruct (JSON.skip_ws r1) as [ | c r' ]; [ discriminate | ].
    destruct (Ascii.eqb c ",").
    + destruct (JSON.parse_elements fuel (JSON.skip_ws r')) as [[items' rest] | ] eqn:E;
        [ | discriminate ].
      intros H. injection H as <- _. split; [ exact Ev | now apply (IHe _ _ _ E) ].
    + destruct (Ascii.eqb c "]"); [ | discriminate ].
      intros H. injection H as <- _. now split.
  - intros s members r. cbn [JSON.parse_members].
    destruct s as [ | q s ]; [ discriminate | ].
    destruct (Ascii.eqb q dquote); [ | discriminate ].
    destruct (JSON.parse_string_body s) as [[name r1] | ]; [ | discriminate ].
    destruct (JSON.skip_ws r1) as [ | colon r2 ]; [ discriminate | ].
    destruct (Ascii.eqb colon ":"); [ | discriminate ].
    destruct (JSON.parse_value fuel (JSON.skip_ws r2)) as [[v r3] | ] eqn:Ev; [ | discriminate ].
    apply IHv in Ev.
    destruct (JSON.skip_ws r3) as [ | c r' ]; [ discriminate | ].
    destruct (Ascii.eqb c ",").
    + destruct (JSON.parse_members fuel (JSON.skip_ws r')) as [[members' rest] | ] eqn:E;
        [ | discriminate ].
      intros H. injection H as <- _. split; [ exact Ev | now apply (IHm _ _ _ E) ].
    + destruct (Ascii.eqb c "}"); [ | discriminate ].
      intros H. injection H as <- _. now split.
Qed.

Theorem parse_canonical (text : string) (v : JSON.Value) :
  JSON.parse text = Some v -> canonical v.
Proof.
  unfold JSON.parse.
  destruct (JSON.parse_value (JSON.fuel_for text) (JSON.skip_ws text)) as [[w r] | ] eqn:E;
    [ | discriminate ].
  destruct (JSON.skip_ws r); [ | discriminate ].
  intros H. injection H as <-.
  now apply (proj1 (parse_value_canonical _) _ _ _ E).
Qed.

(** ** The fuel of the parser is enough *)

Lemma skip_ws_length (s : string) :
  String.length (JSON.skip_ws s) <= String.length s.
Proof.
  induction s as [ | c s IH ]; simpl; [ lia | ].
  destruct (JSON.is_ws c); simpl; lia.
Qed.

Lemma read_digits_length (s : string) :
  forall acc count,
    let '(_, _, r) := JSString.read_digits s acc count in
    String.length r <= String.length s.
Proof.
  induction s as [ | c s IH ]; intros acc count; simpl; [ lia | ].
  destruct (JSString.is_digit c); [ | simpl; lia ].
  specialize (IH (10 * acc + JSString.digit_value c)%Z (S count)).
  destruct (JSString.read_digits s _ _) as [[v n] r]. lia.
Qed.

Lemma read_fraction_length (s : string) (v : Z) (n : nat) (r : string) :
  JSON.read_fraction s = Some (v, n, r) -> String.length r <= String.length s.
Proof.
  unfold JSON.read_fraction. destruct s as [ | c s ].
  - intros H. injection H as _ _ <-. lia.
  - destruct (Ascii.eqb c ".").
    + pose proof (read_digits_length s 0%Z 0) as Hlen.
      destruct (JSString.read_digits s 0 0) as [[v' n'] r'].
      destruct (Nat.eqb n' 0); [ discriminate | ].
      intros H. injection H as _ _ <-. simpl. lia.
    + intros H. injection H as _ _ <-. lia.
Qed.

Lemma read_exponent_digits_length (negative : bool) (s : string) (v : Z) (r : string) :
  JSON.read_exponent_digits negative s = Some (v, r) ->
  String.length r <= String.length s.
Proof.
  unfold JSON.read_exponent_digits.
  pose proof (read_digits_length s 0%Z 0) as Hlen.
  destruct (JSString.read_digits s 0 0) as [[v' n'] r'].
  destruct (Nat.eqb n' 0); [ discriminate | ].
  intros H. injection H as _ <-. exact Hlen.
Qed.

Lemma read_exponent_length (s : string) (v : Z) (r : string) :
  JSON.read_exponent s = Some (v, r) -> String.length r <= String.length s.
Proof.
  unfold JSON.read_exponent. destruct s as [ | c s ].
  - intros H. injection H as _ <-. lia.
  - destruct (Ascii.eqb c "e" || Ascii.eqb c "E")%bool.
    + destruct s as [ | sign s' ]; [ discriminate | ].
      destruct (Ascii.eqb sign "+"); [ | destruct (Ascii.eqb sign "-") ];
        intros H; apply read_exponent_digits_length in H; simpl in *; lia.
    + intros H. injection H as _ <-. lia.
Qed.

Lemma parse_unsigned_length (negative : bool) (s : string) (v : JSON.Value) (r : string) :
  JSON.parse_unsigned negative s = Some (v, r) -> String.length r < String.length s.
Proof.
  unfold JSON.parse_unsigned. destruct s as [ | c s ]; [ discriminate | ].
  destruct (JSString.is_digit c) eqn:Hc; [ | discriminate ].
  assert (Hint : let '(_, _, s2) :=
                   (if Ascii.eqb c "0" then (0%Z, 1, s)
                    else JSString.read_digits (String c s) 0 0) in
                 String.length s2 <= String.length s).
  { destruct (Ascii.eqb c "0"); [ lia | ].
    cbn [JSString.read_digits]. rewrite Hc.
    apply (read_digits_length s). }
  destruct (if Ascii.eqb c "0" then _ else _) as [[ip n] s2].
  destruct (JSON.read_fraction s2) as [[[fp fl] s3] | ] eqn:Hf; [ | discriminate ].
  destruct (JSON.read_exponent s3) as [[x s4] | ] eqn:Hx; [ | discriminate ].
  apply read_fraction_length in Hf. apply read_exponent_length in Hx.
  intros H. injection H as _ <-. simpl. lia.
Qed.

Lemma parse_number_length (s : string) (v : JSON.Value) (r : string) :
  JSON.parse_number s = Some (v, r) -> String.length r < String.length s.
Proof.
  unfold JSON.parse_number. destruct s as [ | c s ]; [ discriminate | ].
  destruct (Ascii.eqb c "-"); intros H; apply parse_unsigned_length in H; simpl in *; lia.
Qed.

Lemma parse_string_body_length (s : string) :
  forall str r, JSON.parse_string_body s = Some (str, r) ->
                String.length r < String.length s.
Proof.
  induction s as [s IH] using (well_founded_induction
                                 (Wf_nat.well_founded_ltof _ String.length)).
  unfold Wf_nat.ltof in IH.
  intros str r. destruct s as [ | c s ]; [ discriminate | ].
  cbn [JSON.parse_string_body].
  destruct (Ascii.eqb c dquote); [ intros H; injection H as _ <-; simpl; lia | ].
  destruct (Ascii.eqb c JSON.backslash).
  - destruct s as [ | x r1 ]; [ discriminate | ].
    destruct (Ascii.eqb x "u").
    + destruct r1 as [ | h3 [ | h2 [ | h1 [ | h0 r2 ] ] ] ]; try discriminate.
      destruct (JSON.unicode_escape h3 h2 h1 h0); [ | discriminate ].
      destruct (JSON.parse_string_body r2) as [[str' rest] | ] eqn:E; [ | discriminate ].
      apply IH in E; [ | simpl; lia ].
      intros H. injection H as _ <-. simpl. lia.
    + destruct (JSON.simple_escape x); [ | discriminate ].
      destruct (JSON.parse_string_body r1) as [[str' rest] | ] eqn:E; [ | discriminate ].
      apply IH in E; [ | simpl; lia ].
      intros H. injection H as _ <-. simpl. lia.
  - destruct (Nat.ltb (nat_of_ascii c) 32); [ discriminate | ].
    destruct (JSON.parse_string_body s) as [[str' rest] | ] eqn:E; [ | discriminate ].
    apply IH in E; [ | simpl; lia ].
    intros H. injection H as _ <-. simpl. lia.
Qed.

Lemma prefix_length (a b : string) :
  String.prefix a b = true -> String.length a <= String.length b.
Proof.
  revert a; induction b as [ | c b IH ]; intros [ | x a ]; simpl; try lia; try discriminate.
  destruct (ascii_dec x c); [ | discriminate ].
  intros H. apply IH in H. lia.
Qed.

Lemma parse_literal_length (word : string) (w : JSON.Value) (s : string)
      (v : JSON.Value) (r : string) :
  0 < String.length word ->
  JSON.parse_literal word w s = Some (v, r) -> String.length r < String.length s.
Proof.
  unfold JSON.parse_literal. intros Hword.
  destruct (String.prefix word s) eqn:Hp; [ | discriminate ].
  apply prefix_length in Hp.
  intros H. injection H as _ <-. rewrite length_slice_from. lia.
Qed.

(** Each of the three parsing functions consumes at least one character. *)
Lemma parse_value_length (fuel : nat) :
  (forall s v r, JSON.parse_value fuel s = Some (v, r) ->
                 String.length r < String.length s) /\
  (forall s items r, JSON.parse_elements fuel s = Some (items, r) ->
                     String.length r < String.length s) /\
  (forall s members r, JSON.parse_members fuel s = Some (members, r) ->
                       String.length r < String.length s).
Proof.
  induction fuel as [ | fuel (IHv & IHe & IHm) ]; [ repeat split; discriminate | ].
  split; [ | split ].
  - intros s v r. cbn [JSON.parse_value].
    destruct s as [ | c s ]; [ discriminate | ].
    pose proof (skip_ws_length s) as Hws.
    destruct (Ascii.eqb c "{").
    { destruct (JSON.skip_ws s) as [ | c' s' ]; [ discriminate | ].
      destruct (Ascii.eqb c' "}").
      - intros H. injection H as _ <-. simpl in *. lia.
      - destruct (JSON.parse_members fuel (String c' s')) as [[members rest] | ] eqn:E;
          [ | discriminate ].
        apply IHm in E. intros H. injection H as _ <-. simpl in *. lia. }
    destruct (Ascii.eqb c "[").
    { destruct (JSON.skip_ws s) as [ | c' s' ]; [ discriminate | ].
      destruct (Ascii.eqb c' "]").
      - intros H. injection H as _ <-. simpl in *. lia.
      - destruct (JSON.parse_elements fuel (String c' s')) as [[items rest] | ] eqn:E;
          [ | discriminate ].
        apply IHe in E. intros H. injection H as _ <-. simpl in *. lia. }
    destruct (Ascii.eqb c dquote).
    { destruct (JSON.parse_string_body s) as [[str rest] | ] eqn:E; [ | discriminate ].
      apply parse_string_body_length in E.
      intros H. injection H as _ <-. simpl. lia. }
    destruct (Ascii.eqb c "t"); [ apply parse_literal_length; simpl; lia | ].
    destruct (Ascii.eqb c "f"); [ apply parse_literal_length; simpl; lia | ].
    destruct (Ascii.eqb c "n"); [ apply parse_literal_length; simpl; lia | ].
    apply parse_number_length.
  - intros s items r. cbn [JSON.parse_elements].
    destruct (JSON.parse_value fuel s) as [[v r1] | ] eqn:Ev; [ | discriminate ].
    apply IHv in Ev. pose proof (skip_ws_length r1) as Hws.
    destruct (JSON.skip_ws r1) as [ | c r' ]; [ discriminate | ].
    destruct (Ascii.eqb c ",").
    + pose proof (skip_ws_length r') as Hws'.
      destruct (JSON.parse_elements fuel (JSON.skip_ws r')) as [[items' rest] | ] eqn:E;
        [ | discriminate ].
      apply IHe in E. intros H. injection H as _ <-. simpl in *. lia.
    + destruct (Ascii.eqb c "]"); [ | discriminate ].
      intros H. injection H as _ <-. simpl in *. lia.
  - intros s members r. cbn [JSON.parse_members].
    destruct s as [ | q s ]; [ discriminate | ].
    destruct (Ascii.eqb q dquote); [ | discriminate ].
    destruct (JSON.parse_string_body s) as [[name r1] | ] eqn:En; [ | discriminate ].
    apply parse_string_body_length in En. pose proof (skip_ws_length r1) as Hws1.
    destruct (JSON.skip_ws r1) as [ | colon r2 ]; [ discriminate | ].
    destruct (Ascii.eqb colon ":"); [ | discriminate ].
    pose proof (skip_ws_length r2) as Hws2.
    destruct (JSON.parse_value fuel (JSON.skip_ws r2)) as [[v r3] | ] eqn:Ev; [ | discriminate ].
    apply IHv in Ev. pose proof (skip_ws_length r3) as Hws3.
    destruct (JSON.skip_ws r3) as [ | c r' ]; [ discriminate | ].
    destruct (Ascii.eqb c ",").
    + pose proof (skip_ws_length r') as Hws'.
      destruct (JSON.parse_members fuel (JSON.skip_ws r')) as [[members' rest] | ] eqn:E;
        [ | discriminate ].
      apply IHm in E. intros H. injection H as _ <-. simpl in *. lia.
    + destruct (Ascii.eqb c "}"); [ | discriminate ].
      intros H. injection H as _ <-. simpl in *. lia.
Qed.

Lemma parse_value_unfold (fuel : nat) (s : string) :
  JSON.parse_value (S fuel) s =
  match s with
  | EmptyString => None
  | String c r =>
      if Ascii.eqb c "{" then
        match JSON.skip_ws r with
        | EmptyString => None
        | String c' r' =>
            if Ascii.eqb c' "}" then Some (JSON.JObj [], r')
            else
              match JSON.parse_members fuel (String c' r') with
              | Some (members, rest) =>
                  Some (JSON.JObj (JSON.build_object members), rest)
              | None => None
              end
        end
      else if Ascii.eqb c "[" then
        match JSON.skip_ws r with
        | EmptyString => None
        | String c' r' =>
            if Ascii.eqb c' "]" then Some (JSON.JArr [], r')
            else
              match JSON.parse_elements fuel (String c' r') with
              | Some (items, rest) => Some (JSON.JArr items, rest)
              | None => None
              end
        end
      else if Ascii.eqb c dquote then
        match JSON.parse_string_body r with
        | Some (str, rest) => Some (JSON.JStr str, rest)
        | None => None
        end
      else if Ascii.eqb c "t" then JSON.parse_literal "true" (JSON.JBool true) s
      else if Ascii.eqb c "f" then JSON.parse_literal "false" (JSON.JBool false) s
      else if Ascii.eqb c "n" then JSON.parse_literal "null" JSON.JNull s
      else JSON.parse_number s
  end.
Proof. reflexivity. Qed.

Lemma parse_elements_unfold (fuel : nat) (s : string) :
  JSON.parse_elements (S fuel) s =
  match JSON.parse_value fuel s with
  | Some (v, r) =>
      match JSON.skip_ws r with
      | EmptyString => None
      | String c r' =>
          if Ascii.eqb c "," then
            match JSON.parse_elements fuel (JSON.skip_ws r') with
            | Some (items, rest) => Some (v :: items, rest)
            | None => None
            end
          else if Ascii.eqb c "]" then Some ([v], r')
          else None
      end
  | None => None
  end.
Proof. reflexivity. Qed.

Lemma parse_members_unfold (fuel : nat) (s : string) :
  JSON.parse_members (S fuel) s =
  match s with
  | EmptyString => None
  | String q r0 =>
      if Ascii.eqb q dquote then
        match JSON.parse_string_body r0 with
        | Some (name, r1) =>
            match JSON.skip_ws r1 with
            | EmptyString => None
            | String colon r2 =>
                if Ascii.eqb colon ":" then
                  match JSON.parse_value fuel (JSON.skip_ws r2) with
                  | Some (v, r3) =>
                      match JSON.skip_ws r3 with
                      | EmptyString => None
                      | String c r' =>
                          if Ascii.eqb c "," then
                            match JSON.parse_members fuel (JSON.skip_ws r') with
                            | Some (members, rest) => Some ((name, v) :: members, rest)
                            | None => None
                            end
                          else if Ascii.eqb c "}" then Some ([(name, v)], r')
                          else None
                      end
                  | None => None
                  end
                else None
            end
        | None => None
        end
      else None
  end.
Proof. reflexivity. Qed.

(** More fuel than twice the length of the text changes nothing. *)
Lemma parse_value_stable (fuel : nat) :
  (forall s, 2 * String.length s + 1 <= fuel ->
             JSON.parse_value (S fuel) s = JSON.parse_value fuel s) /\
  (forall s, 2 * String.length s + 2 <= fuel ->
             JSON.parse_elements (S fuel) s = JSON.parse_elements fuel s) /\
  (forall s, 2 * String.length s + 2 <= fuel ->
             JSON.parse_members (S fuel) s = JSON.parse_members fuel s).
Proof.
  induction fuel as [ | fuel (IHv & IHe & IHm) ]; [ repeat split; intros; lia | ].
  split; [ | split ].
  - intros s Hs.
    rewrite (parse_value_unfold (S fuel) s), (parse_value_unfold fuel s).
    destruct s as [ | c r ]; [ reflexivity | ].
    pose proof (skip_ws_length r) as Hws. simpl String.length in Hs.
    destruct (Ascii.eqb c "{").
    { destruct (JSON.skip_ws r) as [ | c' r' ]; [ reflexivity | ].
      destruct (Ascii.eqb c' "}"); [ reflexivity | ].
      rewrite IHm; [ reflexivity | simpl in *; lia ]. }
    destruct (Ascii.eqb c "[").
    { destruct (JSON.skip_ws r) as [ | c' r' ]; [ reflexivity | ].
      destruct (Ascii.eqb c' "]"); [ reflexivity | ].
      rewrite IHe; [ reflexivity | simpl in *; lia ]. }
    reflexivity.
  - intros s Hs.
    rewrite (parse_elements_unfold (S fuel) s), (parse_elements_unfold fuel s).
    rewrite IHv by lia.
    destruct (JSON.parse_value fuel s) as [[v r] | ] eqn:Ev; [ | reflexivity ].
    apply (proj1 (parse_value_length fuel)) in Ev.
    pose proof (skip_ws_length r) as Hws.
    destruct (JSON.skip_ws r) as [ | c r' ]; [ reflexivity | ].
    destruct (Ascii.eqb c ","); [ | reflexivity ].
    pose proof (skip_ws_length r') as Hws'.
    rewrite IHe; [ reflexivity | simpl in *; lia ].
  - intros s Hs.
    rewrite (parse_members_unfold (S fuel) s), (parse_members_unfold fuel s).
    destruct s as [ | q r0 ]; [ reflexivity | ]. simpl String.length in Hs.
    destruct (Ascii.eqb q dquote); [ | reflexivity ].
    destruct (JSON.parse_string_body r0) as [[name r1] | ] eqn:En; [ | reflexivity ].
    apply parse_string_body_length in En. pose proof (skip_ws_length r1) as Hws1.
    destruct (JSON.skip_ws r1) as [ | colon r2 ]; [ reflexivity | ].
    destruct (Ascii.eqb colon ":"); [ | reflexivity ].
    pose proof (skip_ws_length r2) as Hws2.
    rewrite IHv by (simpl in *; lia).
    destruct (JSON.parse_value fuel (JSON.skip_ws r2)) as [[v r3] | ] eqn:Ev; [ | reflexivity ].
    apply (proj1 (parse_value_length fuel)) in Ev.
    pose proof (skip_ws_length r3) as Hws3.
    destruct (JSON.skip_ws r3) as [ | c r' ]; [ reflexivity | ].
    destruct (Ascii.eqb c ","); [ | reflexivity ].
    pose proof (skip_ws_length r') as Hws'.
    rewrite IHm; [ reflexivity | simpl in *; lia ].
Qed.

(** [JSON.parse] never fails for want of fuel: with any amount more, it
    returns the same. *)
Theorem parse_fuel_enough (text : string) (extra : nat) :
  JSON.parse_value (JSON.fuel_for text + extra) (JSON.skip_ws text) =
  JSON.parse_value (JSON.fuel_for text) (JSON.skip_ws text).
Proof.
  induction extra as [ | extra IH ]; [ now rewrite Nat.add_0_r | ].
  rewrite Nat.add_succ_r, <- IH.
  apply (proj1 (parse_value_stable _)).
  pose proof (skip_ws_length text). unfold JSON.fuel_for. lia.
Qed.

(** ** Round trip and idempotence of an edit *)

Lemma written_canonical (newValueRaw : option string) : canonical (written newValueRaw).
Proof.
  destruct newValueRaw as [raw | ]; [ | exact I ].
  unfold written, coerce. destruct (JSON.parse raw) as [v | ] eqn:E; [ | exact I ].
  now apply (parse_canonical raw).
Qed.

(** Numbers of the platform and decimals that are not: a double has at most
    seventeen digits, and past the largest double there is none. *)
Example is_double_examples :
  map (fun me => is_double (fst me) (snd me))
      [(0, 0); (-25, -1); (1, -1); (30000000000000004, -17);
       (9007199254740992, 0); (9007199254740993, 0);
       (12345678901234567000, 0); (12345678901234567890, 0);
       (10 ^ 21, 0); (10 ^ 400, 0); (5, -324); (49, -325)]%Z
  = [true; true; true; true;
     true; false;
     true; false;
     true; false; true; false].
Proof. vm_compute. reflexivity. Qed.

(** C6. With an empty path and a document that parses, writing the
    serialization of a value of the platform gives a text that parses back to
    that value. *)
Theorem root_replacement_roundtrip
        (jsoncModify : string -> JSONPath -> JSON.Value -> option (list Edit))
        (D : string) (V : JSON.Value) (space : nat) :
  JSON.parse D <> None -> canonical V -> all_doubles V = true ->
  JSON.parse (applyEditToJson jsoncModify D (Some []) (Some (JSON.stringify V space)))
  = Some V.
Proof.
  intros HD HV _.
  rewrite (root_edit jsoncModify D (Some []) _ HD) by now right.
  unfold written, coerce. rewrite (parse_stringify V space HV).
  now apply parse_stringify.
Qed.

Lemma root_replacement_roundtrip_witness :
  JSON.parse
    (applyEditToJson (replace_span 0 0) (js "{'a': 1}") (Some [])
       (Some (JSON.stringify
                (JSON.JObj [("2", JSON.JNum 25 (-1));
                            ("k", JSON.JArr [JSON.JNull; JSON.JStr "x";
                                             JSON.JNum (-12345678901234567000) 0])])
                0)))
  = Some (JSON.JObj [("2", JSON.JNum 25 (-1));
                     ("k", JSON.JArr [JSON.JNull; JSON.JStr "x";
                                      JSON.JNum (-12345678901234567000) 0])]).
Proof.
  apply (root_replacement_roundtrip (replace_span 0 0) (js "{'a': 1}")).
  - discriminate.
  - simpl. repeat split.
  - vm_compute. reflexivity.
Defined.




(** * Further properties *)

(** ** The patch loop *)

Lemma length_slice (a b : nat) (s : string) :
  a <= b -> b <= String.length s ->
  String.length (JSString.slice a b s) = b - a.
Proof.
  intros Hab Hb. unfold JSString.slice.
  apply length_slice_to. rewrite length_slice_from. lia.
Qed.

Lemma in_order_last_end (size : nat) (edits : list Edit) :
  forall from, from <= size -> in_order from size edits = true ->
               from <= last_end from edits <= size.
Proof.
  induction edits as [ | e edits IH ]; intros from Hfrom H; [ simpl; lia | ].
  simpl in H. apply andb_prop in H as [H Hrest]. apply andb_prop in H as [H1 H2].
  apply Nat.leb_le in H1, H2. specialize (IH _ H2 Hrest). simpl. lia.
Qed.

Lemma replace_spans_length (text : string) (edits : list Edit) :
  forall from,
    from <= String.length text ->
    in_order from (String.length text) edits = true ->
    String.length (replace_spans from text edits) + removed edits =
    String.length text - from + inserted edits.
Proof.
  induction edits as [ | e edits IH ]; intros from Hfrom H.
  - simpl. rewrite length_slice_from. lia.
  - simpl in H. apply andb_prop in H as [H Hrest]. apply andb_prop in H as [H1 H2].
    apply Nat.leb_le in H1, H2.
    cbn [replace_spans removed inserted fold_right].
    rewrite !length_append, length_slice by lia.
    specialize (IH _ H2 Hrest). unfold removed, inserted in IH. lia.
Qed.

(** X1. Descriptors listed from left to right, without overlap and within the
    text: the result is as long as the text, less what the descriptors remove,
    plus what they bring. *)
Theorem apply_edits_length (text : string) (edits : list Edit) :
  in_order 0 (String.length text) edits = true ->
  String.length (apply_edits text edits) + removed edits =
  String.length text + inserted edits.
Proof.
  intros H. rewrite (apply_edits_in_order text edits 0 H).
  pose proof (replace_spans_length text edits 0 (Nat.le_0_l _) H) as E.
  simpl JSString.slice_to. simpl append. lia.
Qed.

Lemma apply_edits_length_witness :
  String.length (apply_edits "abcdef" [mkEdit 0 1 "XX"; mkEdit 3 2 "Y"])
  + removed [mkEdit 0 1 "XX"; mkEdit 3 2 "Y"]
  = String.length "abcdef" + inserted [mkEdit 0 1 "XX"; mkEdit 3 2 "Y"].
Proof.
  apply (apply_edits_length "abcdef" [mkEdit 0 1 "XX"; mkEdit 3 2 "Y"]).
  reflexivity.
Defined.

Lemma replace_spans_suffix (text : string) (edits : list Edit) :
  forall from,
    exists middle,
      replace_spans from text edits =
      middle ++ JSString.slice_from (last_end from edits) text.
Proof.
  induction edits as [ | e edits IH ]; intros from.
  - exists EmptyString. reflexivity.
  - destruct (IH (offset e + length e)) as (middle & Hm).
    exists (JSString.slice from (offset e) text ++ content e ++ middle).
    cbn [replace_spans last_end]. now rewrite Hm, !append_assoc.
Qed.

(** X2. What lies before the first span and after the last one is untouched:
    the result starts with the same code units as the text up to the first
    offset, and ends with the code units of the text that follow the last
    span. *)
Theorem apply_edits_keeps_outside (text : string) (e : Edit) (edits : list Edit) :
  in_order 0 (String.length text) (e :: edits) = true ->
  JSString.slice_to (offset e) (apply_edits text (e :: edits)) =
    JSString.slice_to (offset e) text /\
  JSString.slice_from
    (String.length (apply_edits text (e :: edits))
     - (String.length text - last_end 0 (e :: edits)))
    (apply_edits text (e :: edits)) =
    JSString.slice_from (last_end 0 (e :: edits)) text.
Proof.
  intros H.
  assert (Hfirst : in_order (offset e) (String.length text) (e :: edits) = true).
  { cbn [in_order] in H |- *.
    apply andb_prop in H as [H Hrest]. apply andb_prop in H as [_ H2].
    now rewrite Nat.leb_refl, H2, Hrest. }
  pose proof (in_order_last_end _ _ 0 (Nat.le_0_l _) H) as [_ Hend].
  split.
  - rewrite (apply_edits_in_order text (e :: edits) (offset e) Hfirst).
    assert (Hoff : offset e <= String.length text).
    { cbn [in_order] in H. apply andb_prop in H as [H _]. apply andb_prop in H as [_ H2].
      apply Nat.leb_le in H2. lia. }
    rewrite slice_to_append by (rewrite length_slice_to; lia).
    now rewrite slice_to_slice_to.
  - rewrite (apply_edits_in_order text (e :: edits) 0 H).
    destruct (replace_spans_suffix text (e :: edits) 0) as (middle & ->).
    cbn [JSString.slice_to append].
    apply slice_from_append.
    rewrite length_append, length_slice_from. lia.
Qed.

Lemma apply_edits_keeps_outside_witness :
  JSString.slice_to 2 (apply_edits "abcdefgh" [mkEdit 2 1 "XX"; mkEdit 4 2 EmptyString])
    = "ab" /\
  JSString.slice_from
    (String.length (apply_edits "abcdefgh" [mkEdit 2 1 "XX"; mkEdit 4 2 EmptyString])
     - (String.length "abcdefgh" - 6))
    (apply_edits "abcdefgh" [mkEdit 2 1 "XX"; mkEdit 4 2 EmptyString])
    = "gh".
Proof.
  apply (apply_edits_keeps_outside "abcdefgh" (mkEdit 2 1 "XX")
           [mkEdit 4 2 EmptyString]).
  reflexivity.
Defined.

Lemma slice_to_all (n : nat) (s : string) :
  String.length s <= n -> JSString.slice_to n s = s.
Proof.
  revert s; induction n as [ | n IH ]; intros [ | c s ]; simpl; intros H;
    try reflexivity; try lia.
  rewrite IH; [ reflexivity | lia ].
Qed.

Lemma slice_from_all (n : nat) (s : string) :
  String.length s <= n -> JSString.slice_from n s = EmptyString.
Proof.
  revert s; induction n as [ | n IH ]; intros [ | c s ]; simpl; intros H;
    try reflexivity; try lia.
  apply IH. lia.
Qed.

(** X3. A single descriptor that reaches past the end of the document is
    clamped, not refused: what it covers of the document is replaced, and one
    that starts at or past the end is appended. *)
Theorem applyEditToJson_clamps
        (jsoncModify : string -> JSONPath -> JSON.Value -> option (list Edit))
        (originalJson : string) (seg : Segment) (rest : JSONPath)
        (newValueRaw : option string) (e : Edit) :
  jsoncModify originalJson (seg :: rest) (written newValueRaw) = Some [e] ->
  String.length originalJson <= offset e + length e ->
  applyEditToJson jsoncModify originalJson (Some (seg :: rest)) newValueRaw =
    JSString.slice_to (offset e) originalJson ++ content e /\
  (String.length originalJson <= offset e ->
   applyEditToJson jsoncModify originalJson (Some (seg :: rest)) newValueRaw =
   originalJson ++ content e).
Proof.
  intros Hm Hlen.
  rewrite (applyEditToJson_cases jsoncModify originalJson (Some (seg :: rest)) newValueRaw), Hm.
  unfold apply_edits. cbn [rev app fold_left]. unfold splice.
  rewrite slice_from_all, append_nil_r by exact Hlen.
  split; [ reflexivity | ].
  intros Hoff. now rewrite slice_to_all.
Qed.

Lemma applyEditToJson_clamps_witness :
  applyEditToJson (fun _ _ _ => Some [mkEdit 1 9 "]"]) "[1, 2" (Some [Index 0]) None
    = "[]" /\
  applyEditToJson (fun _ _ _ => Some [mkEdit 7 2 "x"]) "[1]" (Some [Index 0]) None
    = "[1]x".
Proof.
  split.
  - refine (proj1 (applyEditToJson_clamps (fun _ _ _ => Some [mkEdit 1 9 "]"]) "[1, 2"
                     (Index 0) [] None (mkEdit 1 9 "]") eq_refl _)).
    simpl. lia.
  - refine (proj2 (applyEditToJson_clamps (fun _ _ _ => Some [mkEdit 7 2 "x"]) "[1]"
                     (Index 0) [] None (mkEdit 7 2 "x") eq_refl _) _).
    + simpl. lia.
    + simpl. lia.
Defined.

(** ** Root replacement *)

(** X4. Root mode keeps a valid document valid: whatever the raw text, the
    result parses, so that a root edit that follows is never refused and
    alone decides the document. *)
Theorem root_edit_parses
        (jsoncModify : string -> JSONPath -> JSON.Value -> option (list Edit))
        (originalJson : string) (path : option JSONPath) (newValueRaw : option string) :
  JSON.parse originalJson <> None ->
  path = None \/ path = Some [] ->
  JSON.parse (applyEditToJson jsoncModify originalJson path newValueRaw) <> None /\
  forall following : option string,
    applyEditToJson jsoncModify
      (applyEditToJson jsoncModify originalJson path newValueRaw) path following
    = applyEditToJson jsoncModify originalJson path following.
Proof.
  intros Hdoc Hpath.
  assert (Hvalid : JSON.parse (applyEditToJson jsoncModify originalJson path newValueRaw)
                   <> None).
  { rewrite (root_edit jsoncModify originalJson path newValueRaw Hdoc Hpath).
    rewrite parse_stringify by apply written_canonical. discriminate. }
  split; [ exact Hvalid | ].
  intros following.
  rewrite (root_edit jsoncModify _ path following Hvalid Hpath).
  now rewrite (root_edit jsoncModify originalJson path following Hdoc Hpath).
Qed.

Lemma root_edit_parses_witness :
  JSON.parse (applyEditToJson (replace_span 0 0) (js "{'a': 1}") (Some [])
                (Some "not json, [really")) <> None /\
  applyEditToJson (replace_span 0 0)
    (applyEditToJson (replace_span 0 0) (js "{'a': 1}") (Some [])
                     (Some "not json, [really"))
    (Some []) (Some "[1]")
  = applyEditToJson (replace_span 0 0) (js "{'a': 1}") (Some []) (Some "[1]").
Proof.
  refine ((fun H => conj (proj1 H) (proj2 H (Some "[1]")))
            (root_edit_parses (replace_span 0 0) (js "{'a': 1}") (Some [])
               (Some "not json, [really") _ _)).
  - discriminate.
  - right. reflexivity.
Defined.

(** X5. Root mode reformats: given any serialization of a value of the
    platform, whatever its indentation, it returns the two-space one. *)
Theorem root_edit_reformats
        (jsoncModify : string -> JSONPath -> JSON.Value -> option (list Edit))
        (originalJson : string) (path : option JSONPath)
        (V : JSON.Value) (space : nat) :
  JSON.parse originalJson <> None ->
  path = None \/ path = Some [] ->
  canonical V -> all_doubles V = true ->
  applyEditToJson jsoncModify originalJson path (Some (JSON.stringify V space))
  = JSON.stringify V 2.
Proof.
  intros Hdoc Hpath HV _.
  rewrite (root_edit jsoncModify originalJson path _ Hdoc Hpath).
  unfold written, coerce. now rewrite (parse_stringify V space HV).
Qed.

Lemma root_edit_reformats_witness :
  applyEditToJson (replace_span 0 0) "[]" (Some [])
    (Some (JSON.stringify (JSON.JArr [JSON.JNum 1 0; JSON.JStr "x"]) 0))
    = JSON.stringify (JSON.JArr [JSON.JNum 1 0; JSON.JStr "x"]) 2.
Proof.
  apply (root_edit_reformats (replace_span 0 0) "[]" (Some [])
           (JSON.JArr [JSON.JNum 1 0; JSON.JStr "x"]) 0).
  - discriminate.
  - right. reflexivity.
  - simpl. repeat split.
  - vm_compute. reflexivity.
Defined.

(** ** Coercion *)

(** X6. Text that is not JSON and the same text between quotes, escaped as a
    string literal, give the same edit, at every path and on every document. *)
Theorem quoting_changes_nothing
        (jsoncModify : string -> JSONPath -> JSON.Value -> option (list Edit))
        (originalJson : string) (path : option JSONPath) (text : string) :
  JSON.parse text = None ->
  applyEditToJson jsoncModify originalJson path (Some (JSON.quote text)) =
  applyEditToJson jsoncModify originalJson path (Some text).
Proof.
  intros Htext.
  rewrite !applyEditToJson_cases.
  assert (E : written (Some (JSON.quote text)) = written (Some text)).
  { unfold written, coerce. rewrite Htext.
    change (JSON.quote text) with (JSON.stringify (JSON.JStr text) 0).
    now rewrite (parse_stringify (JSON.JStr text) 0 I). }
  now rewrite E.
Qed.

Lemma quoting_changes_nothing_witness :
  applyEditToJson (replace_span 5 1) (js "{'a':1}") (Some [Key "a"])
    (Some (JSON.quote "hello world")) =
  applyEditToJson (replace_span 5 1) (js "{'a':1}") (Some [Key "a"])
    (Some "hello world").
Proof.
  apply (quoting_changes_nothing (replace_span 5 1) (js "{'a':1}") (Some [Key "a"])
           "hello world").
  reflexivity.
Defined.

(** ** The text of a node *)

Lemma normalizeNodeData_object_branch (rows : list NodeRow) :
  object_branch rows = true ->
  normalizeNodeData (Some rows) =
  JSON.stringify (JSON.JObj (own (fold_left add_row rows empty_object))) 2.
Proof.
  destruct rows as [ | row [ | row' rows ] ]; intros H; try reflexivity.
  simpl in H. cbn [normalizeNodeData List.length Nat.eqb andb]. now rewrite H.
Qed.

Lemma assign_ordered (obj : PlainObject) (name : string) (p : Primitive) :
  Ordered (own obj) -> Ordered (own (assign obj name p)).
Proof.
  intros H. unfold assign.
  destruct (String.eqb name "__proto__" && inherits obj
            && negb (JSON.has_property name (own obj)))%bool.
  - now destruct p.
  - now apply ordered_define_own.
Qed.

Lemma assign_values (obj : PlainObject) (name : string) (p : Primitive) :
  canonical (to_value p) -> values_canonical (own obj) ->
  values_canonical (own (assign obj name p)).
Proof.
  intros Hp H. unfold assign.
  destruct (String.eqb name "__proto__" && inherits obj
            && negb (JSON.has_property name (own obj)))%bool.
  - now destruct p.
  - now apply define_own_canonical.
Qed.

Lemma add_row_canonical (obj : PlainObject) (row : NodeRow) :
  canonical (to_value (value row)) ->
  Ordered (own obj) /\ values_canonical (own obj) ->
  Ordered (own (add_row obj row)) /\ values_canonical (own (add_row obj row)).
Proof.
  intros Hrow [Hord Hval]. unfold add_row.
  destruct (negb (String.eqb (type row) "array") && negb (String.eqb (type row) "object"))%bool;
    [ | now split ].
  destruct (truthy (key row)); [ | now split ].
  destruct (key row) as [name | ]; [ | now split ].
  split; [ now apply assign_ordered | now apply assign_values ].
Qed.

Lemma fold_add_row_canonical (rows : list NodeRow) :
  rows_canonical rows ->
  forall obj,
    Ordered (own obj) /\ values_canonical (own obj) ->
    Ordered (own (fold_left add_row rows obj)) /\
    values_canonical (own (fold_left add_row rows obj)).
Proof.
  induction 1 as [ | row rows Hrow _ IH ]; intros obj Hobj; [ exact Hobj | ].
  simpl. apply IH. now apply add_row_canonical.
Qed.

Lemma add_row_get_name (name : string) (obj : PlainObject) (row : NodeRow) :
  name <> "__proto__" ->
  JSON.get_property name (own (add_row obj row)) =
  if kept row then
    match key row with
    | Some k => if String.eqb k name then Some (to_value (value row))
                else JSON.get_property name (own obj)
    | None => JSON.get_property name (own obj)
    end
  else JSON.get_property name (own obj).
Proof.
  intros Hname. unfold add_row, kept.
  destruct (negb (String.eqb (type row) "array") && negb (String.eqb (type row) "object"))%bool;
    cbn [andb]; [ | reflexivity ].
  destruct (key row) as [k | ] eqn:Hkey; cbn [truthy]; [ | reflexivity ].
  destruct k as [ | c k ]; [ reflexivity | ].
  set (name' := String c k). unfold assign.
  destruct (String.eqb name' "__proto__" && inherits obj
            && negb (JSON.has_property name' (own obj)))%bool eqn:Hproto.
  - apply andb_prop in Hproto as [Hproto _]. apply andb_prop in Hproto as [Hproto _].
    apply String.eqb_eq in Hproto. rewrite Hproto.
    destruct (String.eqb_spec "__proto__" name) as [E | _]; [ now elim Hname | ].
    now destruct (value row).
  - apply get_define_own.
Qed.

Lemma fold_add_row_get_name (name : string) (rows : list NodeRow) :
  name <> "__proto__" ->
  forall obj found,
    JSON.get_property name (own obj) = found ->
    JSON.get_property name (own (fold_left add_row rows obj)) =
    fold_left
      (fun found row =>
         if kept row then
           match key row with
           | Some k => if String.eqb k name then Some (to_value (value row)) else found
           | None => found
           end
         else found)
      rows found.
Proof.
  intros Hname. induction rows as [ | row rows IH ]; intros obj found Hobj; simpl.
  - exact Hobj.
  - apply IH. rewrite (add_row_get_name name obj row Hname), Hobj. reflexivity.
Qed.

(** X7. The text shown for a node is valid JSON, unless the node is a single row
    without a key: it parses to an object that holds, under every name other
    than [__proto__], the value of the last row kept under that name, and
    nothing under a name no kept row has. *)
Theorem normalizeNodeData_parses (rows : list NodeRow) :
  object_branch rows = true -> rows_canonical rows ->
  exists props,
    JSON.parse (normalizeNodeData (Some rows)) = Some (JSON.JObj props) /\
    forall name, name <> "__proto__" ->
                 JSON.get_property name props = row_value name rows.
Proof.
  intros Hbranch Hrows.
  exists (own (fold_left add_row rows empty_object)). split.
  - rewrite (normalizeNodeData_object_branch rows Hbranch).
    apply parse_stringify.
    destruct (fold_add_row_canonical rows Hrows empty_object) as [Hord Hval].
    + split; [ constructor | exact I ].
    + split; [ now apply build_object_ordered | exact Hval ].
  - intros name Hname. now apply fold_add_row_get_name.
Qed.

Lemma normalizeNodeData_parses_witness :
  exists props,
    JSON.parse
      (normalizeNodeData
         (Some [mkRow (Some "name") (PStr "Ada") "string";
                mkRow (Some "tags") PNull "array";
                mkRow (Some "7") (PNum 25 (-1)) "number";
                mkRow (Some "name") (PStr "Eve") "string"]))
    = Some (JSON.JObj props) /\
    forall name, name <> "__proto__" ->
      JSON.get_property name props =
      row_value name [mkRow (Some "name") (PStr "Ada") "string";
                      mkRow (Some "tags") PNull "array";
                      mkRow (Some "7") (PNum 25 (-1)) "number";
                      mkRow (Some "name") (PStr "Eve") "string"].
Proof.
  apply (normalizeNodeData_parses
           [mkRow (Some "name") (PStr "Ada") "string";
            mkRow (Some "tags") PNull "array";
            mkRow (Some "7") (PNum 25 (-1)) "number";
            mkRow (Some "name") (PStr "Eve") "string"]).
  - reflexivity.
  - repeat constructor.
Defined.

Lemma parsed_object (rows : list NodeRow) (props : list (string * JSON.Value)) :
  object_branch rows = true -> rows_canonical rows ->
  JSON.parse (normalizeNodeData (Some rows)) = Some (JSON.JObj props) ->
  props = own (fold_left add_row rows empty_object).
Proof.
  intros Hbranch Hrows.
  rewrite (normalizeNodeData_object_branch rows Hbranch), parse_stringify.
  - intros H. now injection H as <-.
  - destruct (fold_add_row_canonical rows Hrows empty_object) as [Hord Hval].
    + split; [ constructor | exact I ].
    + split; [ now apply build_object_ordered | exact Hval ].
Qed.

Lemma add_row_source (obj : PlainObject) (row : NodeRow) (name : string) (v : JSON.Value) :
  JSON.get_property name (own (add_row obj row)) = Some v ->
  JSON.get_property name (own obj) = Some v \/
  (kept row = true /\ key row = Some name /\ to_value (value row) = v).
Proof.
  unfold add_row, kept.
  destruct (negb (String.eqb (type row) "array") && negb (String.eqb (type row) "object"))%bool;
    cbn [andb]; [ | now left ].
  destruct (key row) as [k | ] eqn:Hkey; cbn [truthy]; [ | now left ].
  destruct k as [ | c k ]; [ now left | ].
  set (name' := String c k). unfold assign.
  destruct (String.eqb name' "__proto__" && inherits obj
            && negb (JSON.has_property name' (own obj)))%bool.
  - destruct (value row); now left.
  - cbn [own]. rewrite get_define_own.
    destruct (String.eqb_spec name' name) as [E | _]; [ | now left ].
    intros H. injection H as <-. right. now rewrite E.
Qed.

(** X8. Every property of the object shown comes from a row that is kept: no row
    of type array or object and no row without a key gives one, and no name
    or value appears that no row has. *)
Theorem normalizeNodeData_only_kept_rows (rows : list NodeRow)
        (props : list (string * JSON.Value)) (name : string) (v : JSON.Value) :
  object_branch rows = true -> rows_canonical rows ->
  JSON.parse (normalizeNodeData (Some rows)) = Some (JSON.JObj props) ->
  JSON.get_property name props = Some v ->
  exists row, In row rows /\ kept row = true /\ key row = Some name /\
              to_value (value row) = v.
Proof.
  intros Hbranch Hrows Hparse.
  rewrite (parsed_object rows props Hbranch Hrows Hparse). clear Hparse Hbranch Hrows.
  assert (G : forall obj,
            JSON.get_property name (own (fold_left add_row rows obj)) = Some v ->
            JSON.get_property name (own obj) = Some v \/
            exists row, In row rows /\ kept row = true /\ key row = Some name /\
                        to_value (value row) = v).
  { induction rows as [ | row rows IH ]; intros obj H; [ now left | ].
    simpl in H. destruct (IH _ H) as [Hold | (r & Hin & Hr)].
    - destruct (add_row_source obj row name v Hold) as [Hobj | Hnew]; [ now left | ].
      right. exists row. split; [ now left | exact Hnew ].
    - right. exists r. split; [ now right | exact Hr ]. }
  intros H. destruct (G empty_object H) as [Hempty | Hrow]; [ discriminate | exact Hrow ].
Qed.

Lemma normalizeNodeData_only_kept_rows_witness :
  exists row,
    In row [mkRow (Some "a") (PNum 1 0) "number"; mkRow (Some "b") PNull "array";
            mkRow None (PStr "x") "string"] /\
    kept row = true /\ key row = Some "a" /\ to_value (value row) = JSON.JNum 1 0.
Proof.
  apply (normalizeNodeData_only_kept_rows
           [mkRow (Some "a") (PNum 1 0) "number"; mkRow (Some "b") PNull "array";
            mkRow None (PStr "x") "string"]
           [("a", JSON.JNum 1 0)] "a" (JSON.JNum 1 0)).
  - reflexivity.
  - repeat constructor.
  - reflexivity.
  - reflexivity.
Defined.

Lemma has_get_property (name : string) (props : list (string * JSON.Value)) :
  JSON.has_property name props =
  match JSON.get_property name props with Some _ => true | None => false end.
Proof.
  induction props as [ | [k w] props IH ]; simpl; [ reflexivity | ].
  now destruct (String.eqb k name).
Qed.

(** X9. Rows keyed [__proto__] leave no trace unless one of them holds [null]:
    the object shown has no such property. *)
Theorem normalizeNodeData_drops_proto (rows : list NodeRow)
        (props : list (string * JSON.Value)) :
  object_branch rows = true -> rows_canonical rows ->
  (forall row, In row rows -> key row = Some "__proto__" -> value row <> PNull) ->
  JSON.parse (normalizeNodeData (Some rows)) = Some (JSON.JObj props) ->
  JSON.get_property "__proto__" props = None.
Proof.
  intros Hbranch Hrows Hnull Hparse.
  rewrite (parsed_object rows props Hbranch Hrows Hparse). clear Hparse Hbranch Hrows.
  assert (G : forall obj,
            inherits obj = true ->
            JSON.get_property "__proto__" (own obj) = None ->
            JSON.get_property "__proto__" (own (fold_left add_row rows obj)) = None).
  { induction rows as [ | row rows IH ]; intros obj Hinh Hobj; [ exact Hobj | ].
    simpl.
    assert (Hstep : inherits (add_row obj row) = true /\
                    JSON.get_property "__proto__" (own (add_row obj row)) = None).
    { unfold add_row.
      destruct (negb (String.eqb (type row) "array")
                && negb (String.eqb (type row) "object"))%bool; [ | now split ].
      destruct (truthy (key row)); [ | now split ].
      destruct (key row) as [k | ] eqn:Hkey; [ | now split ].
      unfold assign. rewrite Hinh, has_get_property.
      destruct (String.eqb_spec k "__proto__") as [-> | Hk].
      - rewrite Hobj. cbn [andb negb].
        destruct (value row) eqn:Hv; try now split.
        exfalso. apply (Hnull row); [ now left | exact Hkey | exact Hv ].
      - cbn [andb own inherits]. split; [ reflexivity | ].
        rewrite get_define_own.
        destruct (String.eqb_spec k "__proto__"); [ contradiction | exact Hobj ]. }
    apply IH; [ | tauto | tauto ].
    intros r Hr. apply Hnull. now right. }
  now apply G.
Qed.

Lemma normalizeNodeData_drops_proto_witness :
  JSON.get_property "__proto__" [("a", JSON.JNum 1 0)] = None.
Proof.
  apply (normalizeNodeData_drops_proto
           [mkRow (Some "__proto__") (PStr "x") "string";
            mkRow (Some "a") (PNum 1 0) "number";
            mkRow (Some "__proto__") (PBool true) "boolean"]
           [("a", JSON.JNum 1 0)]).
  - reflexivity.
  - repeat constructor.
  - intros row [<- | [<- | [<- | []]]] Hkey; discriminate.
  - reflexivity.
Defined.

(** X10. The text of a single row without a key, taken as the new value, is
    coerced back to what the row holds when that is a number, a boolean or
    [null]; a string comes back as whatever its characters parse to, and as
    itself only when they are not JSON. *)
Theorem single_row_text_coerces_back (row : NodeRow) :
  truthy (key row) = false -> canonical (to_value (value row)) ->
  coerce (normalizeNodeData (Some [row])) =
  match value row with
  | PStr s => coerce s
  | p => to_value p
  end.
Proof.
  intros Hkey Hcan.
  cbn [normalizeNodeData List.length Nat.eqb andb]. rewrite Hkey. cbn [negb].
  destruct (value row) as [ | [ | ] | m e | s ]; try reflexivity.
  unfold coerce. cbn [to_string].
  change (JSON.number_to_string m e) with (JSON.stringify (JSON.JNum m e) 0).
  now rewrite (parse_stringify (JSON.JNum m e) 0 Hcan).
Qed.

Lemma single_row_text_coerces_back_witness :
  coerce (normalizeNodeData (Some [mkRow None (PNum (-125) (-2)) "number"]))
    = JSON.JNum (-125) (-2) /\
  coerce (normalizeNodeData (Some [mkRow None (PStr "42") "string"]))
    = JSON.JNum 42 0.
Proof.
  split.
  - apply (single_row_text_coerces_back (mkRow None (PNum (-125) (-2)) "number"));
      reflexivity.
  - apply (single_row_text_coerces_back (mkRow None (PStr "42") "string"));
      [ reflexivity | exact I ].
Defined.

Lemma number_to_string_nonempty (m e : Z) : JSON.number_to_string m e <> EmptyString.
Proof.
  rewrite number_to_string_body.
  destruct (m =? 0)%Z eqn:Hm; [ discriminate | ].
  destruct (m <? 0)%Z eqn:Hneg; [ discriminate | ].
  apply Z.eqb_neq in Hm. apply Z.ltb_ge in Hneg.
  destruct (digits_spec (Z.abs m)) as (_ & _ & c & r & Hcr & Hc); [ lia | ].
  assert (Hc0 : Ascii.eqb c "0" = false).
  { destruct (Ascii.eqb c "0"); [ | reflexivity ].
    destruct Hc as [Hc _]. specialize (Hc eq_refl). lia. }
  cbn [append]. unfold number_body. rewrite Hcr.
  destruct (e =? 0)%Z.
  - destruct (Z.of_nat (String.length (String c r)) <=? 21)%Z; [ discriminate | ].
    destruct (strip_trailing_zeros_spec c r Hc0) as (r' & j & -> & _).
    rewrite exponential_parts. discriminate.
  - destruct ((0 <? _)%Z && _)%bool.
    + destruct (JSString.slice_to _ (String c r)); discriminate.
    + destruct ((-6 <? _)%Z && _)%bool; [ discriminate | ].
      rewrite exponential_parts. discriminate.
Qed.

(** X11. [normalizeNodeData] returns the empty text in one case only: a single
    row without a key that holds the empty string. *)
Theorem normalizeNodeData_empty_text (nodeRows : option (list NodeRow)) :
  normalizeNodeData nodeRows = EmptyString <->
  exists row, nodeRows = Some [row] /\ truthy (key row) = false /\
              value row = PStr EmptyString.
Proof.
  assert (Hobj : forall props, JSON.stringify (JSON.JObj props) 2 <> EmptyString).
  { intros [ | kv props ]; discriminate. }
  split.
  - destruct nodeRows as [ [ | row [ | row' rows ] ] | ]; try discriminate.
    + cbn [normalizeNodeData List.length Nat.eqb andb].
      destruct (truthy (key row)) eqn:Hkey; cbn [negb].
      * intros H. now apply Hobj in H.
      * intros H. exists row. repeat split; try assumption.
        destruct (value row) as [ | [ | ] | m e | s ]; try discriminate.
        -- now apply number_to_string_nonempty in H.
        -- simpl in H. now rewrite H.
    + intros H. now apply Hobj in H.
  - intros (row & -> & Hkey & Hv).
    cbn [normalizeNodeData List.length Nat.eqb andb]. now rewrite Hkey, Hv.
Qed.

(** X12. Saving the text of the root node as it is shown makes it the whole
    document: in root mode, the edit with the unedited text of an object node
    returns that text, so that rows of type array or object, which the text
    leaves out, are gone from the document. *)
Theorem root_save_unedited
        (jsoncModify : string -> JSONPath -> JSON.Value -> option (list Edit))
        (originalJson : string) (path : option JSONPath) (rows : list NodeRow) :
  JSON.parse originalJson <> None ->
  path = None \/ path = Some [] ->
  object_branch rows = true -> rows_canonical rows ->
  applyEditToJson jsoncModify originalJson path (Some (normalizeNodeData (Some rows)))
  = normalizeNodeData (Some rows).
Proof.
  intros Hdoc Hpath Hbranch Hrows.
  rewrite (root_edit jsoncModify originalJson path _ Hdoc Hpath).
  rewrite (normalizeNodeData_object_branch rows Hbranch).
  unfold written, coerce. rewrite parse_stringify; [ reflexivity | ].
  destruct (fold_add_row_canonical rows Hrows empty_object) as [Hord Hval].
  - split; [ constructor | exact I ].
  - split; [ now apply build_object_ordered | exact Hval ].
Qed.

Lemma root_save_unedited_witness :
  applyEditToJson (replace_span 0 0) (js "{'name':'Ada','tags':[1,2]}") (Some [])
    (Some (normalizeNodeData
             (Some [mkRow (Some "name") (PStr "Ada") "string";
                    mkRow (Some "tags") PNull "array"])))
  = js "{
  'name': 'Ada'
}".
Proof.
  apply (root_save_unedited (replace_span 0 0) (js "{'name':'Ada','tags':[1,2]}")
           (Some [])
           [mkRow (Some "name") (PStr "Ada") "string";
            mkRow (Some "tags") PNull "array"]).
  - discriminate.
  - right. reflexivity.
  - reflexivity.
  - repeat constructor.
Defined.

(** ** The text of a path *)

Lemma brackets_app (p q : JSONPath) :
  brackets (p ++ q)%list = brackets p ++ brackets q.
Proof.
  induction p as [ | seg p IH ]; [ reflexivity | ].
  cbn [app brackets]. now rewrite IH, append_assoc.
Qed.

Lemma jsonPathToString_dollar (p : JSONPath) :
  jsonPathToString (Some p) = "$" ++ brackets p.
Proof.
  destruct p as [ | seg p ]; [ reflexivity | ].
  unfold jsonPathToString.
  change ("$[" ++ JSString.join "][" (map render_segment (seg :: p)) ++ "]")
    with ("$" ++ ("[" ++ JSString.join "][" (map render_segment (seg :: p)) ++ "]")).
  now rewrite join_brackets.
Qed.

(** X13. The text of a longer path starts with the text of the shorter one: going
    one segment down adds that segment between brackets at the end. *)
Theorem jsonPathToString_extends (p q : JSONPath) (seg : Segment) :
  jsonPathToString (Some (p ++ q)%list) = jsonPathToString (Some p) ++ brackets q /\
  jsonPathToString (Some (p ++ [seg])%list) = jsonPathToString (Some p) ++ bracketed seg.
Proof.
  rewrite !jsonPathToString_dollar, !brackets_app, !append_assoc.
  split; [ reflexivity | ]. cbn [brackets]. now rewrite append_nil_r.
Qed.

Lemma terminated_unique (t : ascii) (a : string) :
  forall b x y,
    (forall c, In c (list_ascii_of_string a) -> c <> t) ->
    (forall c, In c (list_ascii_of_string b) -> c <> t) ->
    a ++ String t x = b ++ String t y -> a = b /\ x = y.
Proof.
  induction a as [ | c a IH ]; intros [ | c' b ] x y Ha Hb H; simpl in H.
  - injection H as <-. now split.
  - injection H as <- _. exfalso. apply (Hb t); [ now left | reflexivity ].
  - injection H as -> _. exfalso. apply (Ha t); [ now left | reflexivity ].
  - injection H as <- H.
    destruct (IH b x y) as [-> ->]; [ | | exact H | now split ].
    + intros d Hd. apply Ha. now right.
    + intros d Hd. apply Hb. now right.
Qed.

Lemma all_digits_no (t : ascii) (a : string) :
  JSString.is_digit t = false -> all_digits a = true ->
  forall c, In c (list_ascii_of_string a) -> c <> t.
Proof.
  intros Ht. induction a as [ | d a IH ]; simpl; intros Ha c Hc; [ contradiction | ].
  apply andb_prop in Ha as [Hd Ha]. destruct Hc as [<- | Hc].
  - intros ->. congruence.
  - now apply IH.
Qed.

Lemma quote_free_no (a : string) :
  quote_free a = true -> forall c, In c (list_ascii_of_string a) -> c <> dquote.
Proof.
  induction a as [ | d a IH ]; simpl; intros Ha c Hc; [ contradiction | ].
  apply andb_prop in Ha as [Hd Ha]. destruct Hc as [<- | Hc].
  - intros ->. discriminate.
  - now apply IH.
Qed.

Lemma of_N_inj (i j : N) : JSString.of_N i = JSString.of_N j -> i = j.
Proof.
  unfold JSString.of_N. intros H.
  destruct (digits_spec (Z.of_N i)) as (_ & Hi & _); [ lia | ].
  destruct (digits_spec (Z.of_N j)) as (_ & Hj & _); [ lia | ].
  specialize (Hi 0%Z). specialize (Hj 0%Z). rewrite H in Hi. lia.
Qed.

Lemma brackets_inj (p : JSONPath) :
  forall q, keys_quote_free p = true -> keys_quote_free q = true ->
            brackets p = brackets q -> p = q.
Proof.
  induction p as [ | seg p IH ]; intros [ | seg' q ] Hp Hq H.
  - reflexivity.
  - destruct seg'; discriminate H.
  - destruct seg; discriminate H.
  - cbn [keys_quote_free forallb] in Hp, Hq.
    apply andb_prop in Hp as [Hseg Hp]. apply andb_prop in Hq as [Hseg' Hq].
    cbn [brackets] in H.
    destruct seg as [k | i], seg' as [k' | j]; cbn [bracketed append] in H.
    + rewrite !append_assoc in H. injection H as H.
      apply terminated_unique in H as [-> H];
        [ | now apply quote_free_no | now apply quote_free_no ].
      injection H as H. f_equal. now apply IH.
    + exfalso. injection H as H.
      destruct (digits_spec (Z.of_N j)) as (Hall & _ & c & r & Hcr & _); [ lia | ].
      unfold JSString.of_N in H. rewrite Hcr in H. cbn [all_digits] in Hall.
      rewrite Hcr in Hall. cbn [all_digits] in Hall. apply andb_prop in Hall as [Hc _].
      cbn [append] in H. injection H as <- _. discriminate Hc.
    + exfalso. injection H as H.
      destruct (digits_spec (Z.of_N i)) as (Hall & _ & c & r & Hcr & _); [ lia | ].
      unfold JSString.of_N in H. rewrite Hcr in H.
      rewrite Hcr in Hall. cbn [all_digits] in Hall. apply andb_prop in Hall as [Hc _].
      cbn [append] in H. injection H as -> _. discriminate Hc.
    + rewrite !append_assoc in H. injection H as H.
      destruct (digits_spec (Z.of_N i)) as (Hi & _); [ lia | ].
      destruct (digits_spec (Z.of_N j)) as (Hj & _); [ lia | ].
      apply terminated_unique in H as [E H];
        [ | now apply all_digits_no | now apply all_digits_no ].
      apply of_N_inj in E. subst j. f_equal. now apply IH.
Qed.

(** X14. Two paths whose keys hold no double quote have the same text only when
    they are the same path. *)
Theorem jsonPathToString_injective (p q : JSONPath) :
  keys_quote_free p = true -> keys_quote_free q = true ->
  jsonPathToString (Some p) = jsonPathToString (Some q) -> p = q.
Proof.
  intros Hp Hq H. rewrite !jsonPathToString_dollar in H.
  injection H as H. now apply brackets_inj.
Qed.

Lemma jsonPathToString_injective_witness :
  [Key "customer"; Index 0; Key "name"] = [Key "customer"; Index 0; Key "name"].
Proof.
  apply (jsonPathToString_injective
           [Key "customer"; Index 0; Key "name"] [Key "customer"; Index 0; Key "name"]);
    reflexivity.
Defined.

(** Keys are written as they are, without escapes: with a double quote in a
    key, two different paths can have the same text. *)
Example jsonPathToString_ambiguous :
  jsonPathToString (Some [Key (js "a']['b"); Index 1]) =
  jsonPathToString (Some [Key "a"; Key "b"; Index 1]).
Proof. reflexivity. Qed.

(** ** The dialog *)

Lemma step_in_step (onClose : option NodeModal.Outcome)
      (d d' : NodeModal.Dialog) (e : NodeModal.Event) (calls : list NodeModal.Call)
      (jsoncModify : string -> JSONPath -> JSON.Value -> option (list Edit))
      (setJsonContents : string -> bool -> NodeModal.Outcome) :
  e <> NodeModal.ClickSave ->
  NodeModal.step jsoncModify setJsonContents onClose d e = Some (d', calls) ->
  NodeModal.in_step d ->
  NodeModal.in_step d' /\ Forall (fun call => call = NodeModal.OnClose) calls.
Proof.
  intros He Hstep Hd.
  destruct e; cbn [NodeModal.step] in Hstep;
    try (destruct (NodeModal.isEditing (NodeModal.state d)); [ | discriminate Hstep ]);
    try (destruct (NodeModal.isEditing (NodeModal.state d)) eqn:E; [ discriminate Hstep | ]);
    try congruence;
    injection Hstep as <- <-; (split; [ | try constructor ]);
    try (intros H; cbn in H |- *; congruence).
  - exact Hd.
  - unfold NodeModal.close. destruct onClose; repeat constructor.
  - exact Hd.
Qed.

(** X15. As long as Save is not clicked, the file store is never written, and
    whenever the dialog is out of editing mode its edited value is the text of
    the selected node: the text area opens on what the dialog shows. *)
Theorem no_save_no_write
        (jsoncModify : string -> JSONPath -> JSON.Value -> option (list Edit))
        (setJsonContents : string -> bool -> NodeModal.Outcome)
        (onClose : option NodeModal.Outcome)
        (nodeData : option NodeModal.NodeData) (contents : string)
        (events : list NodeModal.Event)
        (d : NodeModal.Dialog) (calls : list NodeModal.Call) :
  NodeModal.save_free events = true ->
  NodeModal.run jsoncModify setJsonContents onClose
                (NodeModal.mount nodeData contents) events = Some (d, calls) ->
  Forall (fun call => call = NodeModal.OnClose) calls /\
  (NodeModal.isEditing (NodeModal.state d) = false ->
   NodeModal.editedValue (NodeModal.state d) =
   normalizeNodeData (Some (NodeModal.rows (NodeModal.nodeData d)))).
Proof.
  intros Hfree Hrun.
  assert (Hstart : NodeModal.in_step (NodeModal.mount nodeData contents))
    by (intros _; reflexivity).
  revert Hfree Hrun Hstart. generalize (NodeModal.mount nodeData contents) as d0.
  revert d calls.
  induction events as [ | e events IH ]; intros d calls d0 Hfree Hrun Hstart.
  - injection Hrun as <- <-. split; [ constructor | exact Hstart ].
  - cbn [NodeModal.save_free forallb] in Hfree. apply andb_prop in Hfree as [He Hfree].
    cbn [NodeModal.run] in Hrun.
    destruct (NodeModal.step jsoncModify setJsonContents onClose d0 e)
      as [ [d1 calls1] | ] eqn:Hstep; [ | discriminate Hrun ].
    destruct (NodeModal.run jsoncModify setJsonContents onClose d1 events)
      as [ [d2 calls2] | ] eqn:Hrest; [ | discriminate Hrun ].
    injection Hrun as <- <-.
    destruct (step_in_step onClose d0 d1 e calls1 jsoncModify setJsonContents)
      as [Hd1 Hcalls1]; [ intros ->; discriminate He | exact Hstep | exact Hstart | ].
    destruct (IH d2 calls2 d1 Hfree Hrest Hd1) as [Hcalls2 Hd2].
    split; [ | exact Hd2 ].
    apply Forall_app. now split.
Qed.

Lemma no_save_no_write_witness :
  Forall (fun call => call = NodeModal.OnClose) [NodeModal.OnClose] /\
  (false = false -> "{}" = normalizeNodeData (Some [])).
Proof.
  refine (no_save_no_write
            (replace_span 0 0) (fun _ _ => NodeModal.Returns) (Some NodeModal.Returns)
            (Some (NodeModal.mkNode (Some [mkRow (Some "name") (PStr "Ada") "string"])
                                    (Some [Key "customer"])))
            (js "{'customer':{'name':'Ada'}}")
            [NodeModal.ClickEdit; NodeModal.Change "Grace"; NodeModal.ClickCancel;
             NodeModal.ClickEdit; NodeModal.ClickClose; NodeModal.SelectedNode None]
            (NodeModal.mkDialog None (js "{'customer':{'name':'Ada'}}")
                                (NodeModal.mkState false "{}"))
            [NodeModal.OnClose] _ _); reflexivity.
Defined.

(** After Save the edited value stays the text that was typed: until another
    node is selected, Edit opens the text area on it and not on the text of
    the node. *)
Example save_keeps_typed_text :
  let node := Some (NodeModal.mkNode (Some [mkRow None (PNum 1 0) "number"])
                                     (Some [Key "n"])) in
  exists d calls,
    NodeModal.run (replace_span 5 1) (fun _ _ => NodeModal.Returns) None
                  (NodeModal.mount node (js "{'n':1}"))
                  [NodeModal.ClickEdit; NodeModal.Change "2"; NodeModal.ClickSave;
                   NodeModal.ClickEdit] = Some (d, calls) /\
    calls = [NodeModal.SetJsonContents (js "{'n':2}") true] /\
    NodeModal.editedValue (NodeModal.state d) = "2" /\
    normalizeNodeData (Some (NodeModal.rows (NodeModal.nodeData d))) = "1".
Proof. do 2 eexists. repeat split. Qed.

(** X16. When the edit cannot be made (a node at the root of a document that does
    not parse, or a path for which the patch computation raises), Save still
    hands the file store the contents as they are, marked as changed, and
    then leaves editing mode and closes the dialog. *)
Theorem handleSave_failed_edit
        (jsoncModify : string -> JSONPath -> JSON.Value -> option (list Edit))
        (setJsonContents : string -> bool -> NodeModal.Outcome)
        (onClose : option NodeModal.Outcome)
        (nd : NodeModal.NodeData) (contents : string) (s : NodeModal.State) :
  ((NodeModal.path nd = None \/ NodeModal.path nd = Some []) /\
   JSON.parse contents = None) \/
  (exists seg rest,
     NodeModal.path nd = Some (seg :: rest) /\
     jsoncModify contents (seg :: rest) (coerce (NodeModal.editedValue s)) = None) ->
  NodeModal.handleSave jsoncModify setJsonContents onClose (Some nd) contents s =
  match setJsonContents contents true with
  | NodeModal.Returns =>
      (NodeModal.mkState false (NodeModal.editedValue s),
       NodeModal.SetJsonContents contents true :: NodeModal.close onClose)
  | NodeModal.Throws => (s, [NodeModal.SetJsonContents contents true])
  end.
Proof.
  intros H. unfold NodeModal.handleSave.
  assert (E : applyEditToJson jsoncModify contents (NodeModal.path nd)
                              (Some (NodeModal.editedValue s)) = contents).
  { rewrite applyEditToJson_cases.
    destruct H as [ [ [-> | ->] -> ] | (seg & rest & -> & H) ]; try reflexivity.
    change (written (Some (NodeModal.editedValue s)))
      with (coerce (NodeModal.editedValue s)).
    now rewrite H. }
  now rewrite E.
Qed.

Lemma handleSave_failed_edit_witness :
  NodeModal.handleSave (fun _ _ _ => None) (fun _ _ => NodeModal.Returns)
                       (Some NodeModal.Returns)
                       (Some (NodeModal.mkNode None (Some [Key "n"]))) (js "{'n':1}")
                       (NodeModal.mkState true "2") =
  (NodeModal.mkState false "2",
   [NodeModal.SetJsonContents (js "{'n':1}") true; NodeModal.OnClose]).
Proof.
  refine (handleSave_failed_edit
            (fun _ _ _ => None) (fun _ _ => NodeModal.Returns) (Some NodeModal.Returns)
            (NodeModal.mkNode None (Some [Key "n"])) (js "{'n':1}")
            (NodeModal.mkState true "2") _).
  right. exists (Key "n"), []. split; reflexivity.
Defined.
